(** * confluent_scrollable.py: the endpoint viewer's viewport and refresh logic

    A shallow embedding of [src/confluent_scrollable.py].  The program is a
    curses dashboard: [EndpointViewer] keeps a list of endpoint records, a
    selected row, a scroll offset and the auto-refresh clock; [run] is a loop
    that refreshes, draws and dispatches one key per iteration.

    Modelling choices.
    - Python integers are [Z]; Python floats, the values of [time.time()],
      are the binary64 numbers of the machine with their rounding
      arithmetic ([PrimFloat.float]).
    - A record decoded from JSON is a dict with string values:
      [gmap string string]; records holding other JSON values are not
      covered.
    - Strings are [string]; the model is faithful for characters below 128
      (Unicode digits and Unicode spaces accepted by [int] are not covered,
      nor is CPython's limit on the number of digits of a literal).
    - Exceptions are values: a computation that can raise returns [result].
    - The clock, the terminal height, the outcome of the external tool and
      what the terminal answers in a frame are inputs of the functions that
      consult them.
    - Drawing changes nothing in the viewer.  It is modelled by what it
      decides (the row [draw_header] returns, the lines, rows and cells
      written) and, in the loop, by its outcome: a draw call outside a [try]
      can raise [curses.error], and that outcome is part of what the
      terminal answers in the frame. *)

From Stdlib Require Import PrimFloat.
From Stdlib Require FloatOps SpecFloat.
From Stdlib Require Import ZArith Ascii String List Sorted Permutation Lia.
From stdpp Require Import base option list gmap strings sorting.

#[local] Set Warnings "-inexact-float".

Local Open Scope string_scope.
Local Open Scope Z_scope.

(** ** Python values and builtins used by the program *)

Module Py.

(** The exceptions the program can meet. *)
Inductive exception : Type :=
| KeyboardInterrupt
| ValueError
| KeyError
| IndexError
| CalledProcessError
| FileNotFoundError
| JSONDecodeError
| OverflowError
| curses_error.

(** A computation that returns or raises. *)
Inductive result (A : Type) : Type :=
| Ok (a : A)
| Raise (e : exception).
Arguments Ok {A} a.
Arguments Raise {A} e.

Definition bind {A B : Type} (m : result A) (k : A → result B) : result B :=
  match m with
  | Ok a => k a
  | Raise e => Raise e
  end.

Definition is_ok {A : Type} (m : result A) : Prop :=
  match m with
  | Ok _ => True
  | Raise _ => False
  end.

(** [try: body / except: handler] with a bare [except]: every exception,
    [KeyboardInterrupt] included, is replaced by the handler's value. *)
Definition try_except_all {A : Type} (body : result A) (handler : A) : result A :=
  match body with
  | Ok a => Ok a
  | Raise _ => Ok handler
  end.

(** [c in s] for a one-character [c]. *)
Fixpoint str_contains (c : ascii) (s : string) : bool :=
  match s with
  | EmptyString => false
  | String d s' => if Ascii.eqb d c then true else str_contains c s'
  end.

(** [s.split(c)] for a one-character separator: the fields between the
    occurrences of [c], never an empty list. *)
Fixpoint str_split (c : ascii) (s : string) : list string :=
  match s with
  | EmptyString => [EmptyString]
  | String d s' =>
      if Ascii.eqb d c then EmptyString :: str_split c s'
      else match str_split c s' with
           | f :: fs => String d f :: fs
           | [] => [String d EmptyString]
           end
  end.

(** [l[i]] for [i >= 0]. *)
Definition list_index {A : Type} (l : list A) (i : nat) : result A :=
  match l !! i with
  | Some x => Ok x
  | None => Raise IndexError
  end.

(** [d[k]] on a dict. *)
Definition dict_index (d : gmap string string) (k : string) : result string :=
  match d !! k with
  | Some v => Ok v
  | None => Raise KeyError
  end.

(** [d.get(k, default)]. *)
Definition dict_get (d : gmap string string) (k : string) (default : string) : string :=
  match d !! k with
  | Some v => v
  | None => default
  end.

(** The whitespace [int] skips: space and the controls 9 to 13. *)
Definition is_space (c : ascii) : bool :=
  let n := Z.of_nat (nat_of_ascii c) in
  (n =? 32) || ((9 <=? n) && (n <=? 13)).

Definition digit_of (c : ascii) : option Z :=
  let n := Z.of_nat (nat_of_ascii c) in
  if (48 <=? n) && (n <=? 57) then Some (n - 48) else None.

Fixpoint lstrip (s : string) : string :=
  match s with
  | EmptyString => EmptyString
  | String c s' => if is_space c then lstrip s' else s
  end.

Fixpoint all_space (s : string) : bool :=
  match s with
  | EmptyString => true
  | String c s' => is_space c && all_space s'
  end.

(** The digits of a decimal literal after its first digit: digits, single
    underscores between digits, then only whitespace. *)
Fixpoint int_digits (acc : Z) (s : string) : option Z :=
  match s with
  | EmptyString => Some acc
  | String c s' =>
      match digit_of c with
      | Some d => int_digits (10 * acc + d) s'
      | None =>
          if Ascii.eqb c "_" then
            match s' with
            | String c' s'' =>
                match digit_of c' with
                | Some d => int_digits (10 * acc + d) s''
                | None => None
                end
            | EmptyString => None
            end
          else if is_space c then
            (if all_space s' then Some acc else None)
          else None
      end
  end.

Definition int_unsigned (s : string) : option Z :=
  match s with
  | String c s' =>
      match digit_of c with
      | Some d => int_digits d s'
      | None => None
      end
  | EmptyString => None
  end.

(** [int(s)] in base ten: optional surrounding whitespace, an optional
    sign, then the literal; [ValueError] otherwise. *)
Definition int (s : string) : result Z :=
  let parsed :=
    match lstrip s with
    | String "+" r => int_unsigned r
    | String "-" r => Z.opp <$> int_unsigned r
    | r => int_unsigned r
    end in
  match parsed with
  | Some n => Ok n
  | None => Raise ValueError
  end.

(** Python floats. *)
Abbreviation float := PrimFloat.float.

(** [float(n)] of an integer, as in the arithmetic of an integer with a
    float: the nearest binary64 number (exact below 2^53 in size). *)
Definition float_of_int (n : Z) : float :=
  FloatOps.SF2Prim (SpecFloat.binary_normalize FloatOps.prec FloatOps.emax n 0 false).

(** [int(x)] of a float: truncation towards zero; [ValueError] for a NaN
    and [OverflowError] for an infinity. *)
Definition int_of_float (x : float) : result Z :=
  match FloatOps.Prim2SF x with
  | SpecFloat.S754_nan => Raise ValueError
  | SpecFloat.S754_infinity _ => Raise OverflowError
  | SpecFloat.S754_zero _ => Ok 0
  | SpecFloat.S754_finite s m e =>
      let magnitude :=
        match e with
        | Z0 => Zpos m
        | Zpos p => Zpos m * Z.pow_pos 2 p
        | Zneg p => Zpos m / Z.pow_pos 2 p
        end in
      Ok (if s then - magnitude else magnitude)
  end.

End Py.

Import Py.

#[global] Instance result_bind : MBind result := λ A B k m, bind m k.
#[global] Instance result_ret : MRet result := @Ok.

(** Equality of results is decidable. *)
#[global] Instance exception_eq_dec : EqDecision exception.
Proof. solve_decision. Defined.

#[global] Instance result_eq_dec {A} `{EqDecision A} : EqDecision (result A).
Proof. solve_decision. Defined.


(** ** The record source *)

(** One endpoint as decoded from the tool's JSON output. *)
Abbreviation endpoint := (gmap string string).

(** [get_endpoints]: [tool] is the outcome of running the external command
    and decoding its output, the body of the [try]. *)
Definition get_endpoints (tool : result (list endpoint)) : result (list endpoint) :=
  try_except_all tool [].

(** ** Sorting by the key of [load_data] *)

(** The [lambda] given to [sort]:
    [int(x['name'].split('-')[1]) if '-' in x['name'] else 999]. *)
Definition sort_key (x : endpoint) : result Z :=
  name ← dict_index x "name" ;
  if str_contains "-" name then
    name' ← dict_index x "name" ;
    field ← list_index (str_split "-" name') 1 ;
    int field
  else Ok 999.

(** [list.sort(key=...)] first computes the key of every element, in order;
    an exception of the key function ends the sort. *)
Fixpoint decorate (l : list endpoint) : result (list (Z * endpoint)) :=
  match l with
  | [] => Ok []
  | x :: l' =>
      k ← sort_key x ;
      d ← decorate l' ;
      Ok ((k, x) :: d)
  end.

(** Then it sorts stably, ascending by key.  A stable sort has one possible
    result, so insertion (an element goes in front of the later elements of
    equal key) stands for the library's algorithm. *)
Fixpoint insert_by_key (kx : Z * endpoint) (l : list (Z * endpoint)) : list (Z * endpoint) :=
  match l with
  | [] => [kx]
  | ky :: l' =>
      if kx.1 <=? ky.1 then kx :: ky :: l'
      else ky :: insert_by_key kx l'
  end.

Definition sort_decorated (l : list (Z * endpoint)) : list (Z * endpoint) :=
  foldr insert_by_key [] l.

Definition list_sort (l : list endpoint) : result (list endpoint) :=
  d ← decorate l ;
  Ok ((sort_decorated d).*2).

(** ** The viewer *)

Record EndpointViewer : Type := {
  endpoints : list endpoint;
  current_row : Z;
  scroll_offset : Z;
  auto_refresh : bool;
  refresh_interval : Z;
  last_refresh_time : float;
  last_data_update_time : float
}.

Definition len (self : EndpointViewer) : Z := Z.of_nat (length (endpoints self)).

Definition set_current_row (r : Z) (self : EndpointViewer) : EndpointViewer :=
  {| endpoints := endpoints self; current_row := r;
     scroll_offset := scroll_offset self; auto_refresh := auto_refresh self;
     refresh_interval := refresh_interval self;
     last_refresh_time := last_refresh_time self;
     last_data_update_time := last_data_update_time self |}.

Definition set_scroll_offset (o : Z) (self : EndpointViewer) : EndpointViewer :=
  {| endpoints := endpoints self; current_row := current_row self;
     scroll_offset := o; auto_refresh := auto_refresh self;
     refresh_interval := refresh_interval self;
     last_refresh_time := last_refresh_time self;
     last_data_update_time := last_data_update_time self |}.

Definition set_auto_refresh (b : bool) (self : EndpointViewer) : EndpointViewer :=
  {| endpoints := endpoints self; current_row := current_row self;
     scroll_offset := scroll_offset self; auto_refresh := b;
     refresh_interval := refresh_interval self;
     last_refresh_time := last_refresh_time self;
     last_data_update_time := last_data_update_time self |}.

Definition set_last_refresh_time (t : float) (self : EndpointViewer) : EndpointViewer :=
  {| endpoints := endpoints self; current_row := current_row self;
     scroll_offset := scroll_offset self; auto_refresh := auto_refresh self;
     refresh_interval := refresh_interval self;
     last_refresh_time := t;
     last_data_update_time := last_data_update_time self |}.

(** The two assignments of [load_data]. *)
Definition set_loaded (l : list endpoint) (t : float) (self : EndpointViewer) : EndpointViewer :=
  {| endpoints := l; current_row := current_row self;
     scroll_offset := scroll_offset self; auto_refresh := auto_refresh self;
     refresh_interval := refresh_interval self;
     last_refresh_time := last_refresh_time self;
     last_data_update_time := t |}.

(** [load_data]: [now] is the clock read on its last line. *)
Definition load_data (tool : result (list endpoint)) (now : float)
    (self : EndpointViewer) : result EndpointViewer :=
  fetched ← get_endpoints tool ;
  sorted ← match fetched with
           | [] => Ok fetched
           | _ :: _ => list_sort fetched
           end ;
  Ok (set_loaded sorted now self).

(** [__init__]: the fields as the constructor sets them, then the first
    load.  [t0] and [t1] are its two clock reads, [now] is the load's. *)
Definition init (t0 t1 : float) (tool : result (list endpoint)) (now : float) : result EndpointViewer :=
  load_data tool now
    {| endpoints := []; current_row := 0; scroll_offset := 0;
       auto_refresh := false; refresh_interval := 15;
       last_refresh_time := t0; last_data_update_time := t1 |}.

(** ** Scrolling *)

(** [handle_scroll]: [height] is what [getmaxyx] answers. *)
Definition handle_scroll (height : Z) (self : EndpointViewer) : EndpointViewer :=
  let max_scroll := Z.max 0 (len self - 1) in
  let visible_rows := height - 10 in
  let self' :=
    if current_row self <? scroll_offset self then
      set_scroll_offset (current_row self) self
    else if current_row self >=? scroll_offset self + visible_rows then
      set_scroll_offset (current_row self - visible_rows + 1) self
    else self in
  set_scroll_offset (Z.max 0 (Z.min (scroll_offset self') max_scroll)) self'.

(** ** Keys *)

(** [ord('q')], [ord('r')], [ord('t')] and the key codes of ncurses. *)
Definition ord_q : Z := 113.
Definition ord_r : Z := 114.
Definition ord_t : Z := 116.
Definition KEY_DOWN : Z := 258.
Definition KEY_UP : Z := 259.
Definition KEY_HOME : Z := 262.
Definition KEY_NPAGE : Z := 338.
Definition KEY_PPAGE : Z := 339.
Definition KEY_END : Z := 360.

(** The navigation branches of [run], from [KEY_UP] on, in source order. *)
Definition navigate (height : Z) (key : Z) (self : EndpointViewer) : EndpointViewer :=
  if (key =? KEY_UP) && (current_row self >? 0) then
    handle_scroll height (set_current_row (current_row self - 1) self)
  else if (key =? KEY_DOWN) && (current_row self <? len self - 1) then
    handle_scroll height (set_current_row (current_row self + 1) self)
  else if key =? KEY_PPAGE then
    handle_scroll height (set_current_row (Z.max 0 (current_row self - 10)) self)
  else if key =? KEY_NPAGE then
    handle_scroll height (set_current_row (Z.min (len self - 1) (current_row self + 10)) self)
  else if key =? KEY_HOME then
    set_scroll_offset 0 (set_current_row 0 self)
  else if key =? KEY_END then
    handle_scroll height (set_current_row (len self - 1) self)
  else self.

(** ** Drawing *)

(** [Counter(iterable)]: the distinct values in first-seen order, each with
    its number of occurrences. *)
Fixpoint counter_add (k : string) (c : list (string * Z)) : list (string * Z) :=
  match c with
  | [] => [(k, 1)]
  | (k', n) :: c' =>
      if String.eqb k' k then (k', n + 1) :: c'
      else (k', n) :: counter_add k c'
  end.

Definition Counter (l : list string) : list (string * Z) :=
  fold_left (λ c k, counter_add k c) l [].

Definition status_counts (self : EndpointViewer) : list (string * Z) :=
  Counter ((λ ep, dict_get ep "phase" "UNKNOWN") <$> endpoints self).

(** [draw_header] returns the row below the status summary. *)
Definition draw_header (height : Z) (self : EndpointViewer) : Z :=
  match endpoints self with
  | [] => 4
  | _ :: _ =>
      let y := fold_left (λ y _, y + 1) (status_counts self) 3 in
      y + 1
  end.

(** The body of the [for] of [draw_table] over the values [range] of [i]; a
    written row is its screen line and the index of its record. *)
Fixpoint draw_rows (range : list Z) (table_start_y height : Z)
    (self : EndpointViewer) : list (Z * Z) :=
  match range with
  | [] => []
  | i :: range' =>
      let row_index := scroll_offset self + i in
      if row_index >=? len self then []
      else
        let y := table_start_y + i in
        if y >=? height - 3 then []
        else (y, row_index) :: draw_rows range' table_start_y height self
  end.

(** The rows [draw_table] has room for: [visible_rows], three lines above
    the bottom being left to the footer. *)
Definition table_visible_rows (start_y height : Z) : Z :=
  let table_start_y := start_y + 2 in
  height - table_start_y - 3.

(** [draw_table]: the rows written, top to bottom. *)
Definition draw_table (start_y height : Z) (self : EndpointViewer) : list (Z * Z) :=
  match endpoints self with
  | [] => []
  | _ :: _ =>
      let table_start_y := start_y + 2 in
      let visible_rows := table_visible_rows start_y height in
      draw_rows (seqZ 0 visible_rows) table_start_y height self
  end.

(** The rows of the table in one frame of [run]. *)
Definition frame_rows (height : Z) (self : EndpointViewer) : list (Z * Z) :=
  draw_table (draw_header height self) height self.

(** The row drawn in reverse video, when there is one. *)
Definition selected_row_drawn (height : Z) (self : EndpointViewer) : Prop :=
  current_row self ∈ (frame_rows height self).*2.

(** ** The main loop *)

(** What one iteration of [run] reads from outside.  Lines 234 to 244 clear
    the screen, call the three draw functions, refresh and wait in [getch]:
    they talk to the terminal and leave the viewer as it is, and [f_key] is
    what comes of them, the key read or the exception that ended them
    ([curses.error] from a draw call outside a [try], [KeyboardInterrupt]). *)
Record frame : Type := {
  f_height : Z;                         (* getmaxyx at the top of the loop,
                                           handed to the draw functions *)
  f_clock : float;                      (* the clock in the auto-refresh test *)
  f_auto_tool : result (list endpoint); (* the tool, if auto-refresh loads *)
  f_auto_loaded : float;                (* the clock at the end of that load *)
  f_auto_marked : float;                (* the clock stored after it *)
  f_key : result Z;                     (* drawing, then getch: a key, -1 on a
                                           timeout, or the exception raised *)
  f_key_tool : result (list endpoint);  (* the tool, if the key is r *)
  f_key_loaded : float;                 (* the clock at the end of that load *)
  f_key_marked : float;                 (* the clock stored by r or t *)
  f_scroll_height : Z                   (* getmaxyx inside handle_scroll *)
}.

Inductive step : Type :=
| Continue (self : EndpointViewer)
| Break.

(** The test of the auto-refresh [if]. *)
Definition auto_refresh_due (now : float) (self : EndpointViewer) : bool :=
  auto_refresh self &&
  PrimFloat.leb (float_of_int (refresh_interval self))
                (PrimFloat.sub now (last_refresh_time self)).

(** The [if]/[elif] chain on the key. *)
Definition dispatch (f : frame) (key : Z) (self : EndpointViewer) : result step :=
  if key =? ord_q then Ok Break
  else if key =? ord_r then
    self' ← load_data (f_key_tool f) (f_key_loaded f) self ;
    Ok (Continue (set_last_refresh_time (f_key_marked f) self'))
  else if key =? ord_t then
    let self' := set_auto_refresh (negb (auto_refresh self)) self in
    if auto_refresh self' then
      Ok (Continue (set_last_refresh_time (f_key_marked f) self'))
    else Ok (Continue self')
  else Ok (Continue (navigate (f_scroll_height f) key self)).

(** The body of the [while True]: the auto-refresh, then the drawing and
    [getch] (whose outcome is [f_key]), then the key. *)
Definition run_iteration (f : frame) (self : EndpointViewer) : result step :=
  self' ← (if auto_refresh_due (f_clock f) self then
             loaded ← load_data (f_auto_tool f) (f_auto_loaded f) self ;
             Ok (set_last_refresh_time (f_auto_marked f) loaded)
           else Ok self) ;
  key ← f_key f ;
  dispatch f key self'.

(** How far a run has come after a finite number of frames. *)
Inductive progress : Type :=
| Running (self : EndpointViewer)
| Exited.

Fixpoint run (frames : list frame) (self : EndpointViewer) : result progress :=
  match frames with
  | [] => Ok (Running self)
  | f :: frames' =>
      s ← run_iteration f self ;
      match s with
      | Break => Ok Exited
      | Continue self' => run frames' self'
      end
  end.

(** [main]: the constructor, the loop, and [except KeyboardInterrupt: pass]. *)
Definition main (t0 t1 : float) (tool : result (list endpoint)) (now : float)
    (frames : list frame) : result progress :=
  match (viewer ← init t0 t1 tool now ; run frames viewer) with
  | Raise KeyboardInterrupt => Ok Exited
  | r => r
  end.

(** ** Concrete data used in examples *)

(** A record with only a name. *)
Definition named (n : string) : endpoint := {[ "name" := n ]}.

(** The viewer as the constructor leaves it before the first load. *)
Definition fresh : EndpointViewer :=
  {| endpoints := []; current_row := 0; scroll_offset := 0;
     auto_refresh := false; refresh_interval := 15;
     last_refresh_time := 0%float; last_data_update_time := 0%float |}.

(** A viewer showing [l] with the given selection and offset. *)
Definition showing (l : list endpoint) (row offset : Z) : EndpointViewer :=
  set_scroll_offset offset (set_current_row row (set_loaded l 0%float fresh)).

(** A frame in which the terminal is [height] rows high, the clock reads
    [t], the tool answers [tool] and drawing and [getch] come to [key]. *)
Definition key_frame (height : Z) (t : float) (tool : result (list endpoint))
    (key : result Z) : frame :=
  {| f_height := height; f_clock := t;
     f_auto_tool := tool; f_auto_loaded := t; f_auto_marked := t;
     f_key := key;
     f_key_tool := tool; f_key_loaded := t; f_key_marked := t;
     f_scroll_height := height |}.

(** Keys handled one after the other by the navigation branches, on a
    terminal that keeps its height. *)
Definition press (height : Z) (keys : list Z) (self : EndpointViewer) : EndpointViewer :=
  foldl (λ s key, navigate height key s) self keys.

(** The selected row is a row of the list. *)
Definition selection_valid (self : EndpointViewer) : Prop :=
  0 ≤ current_row self < len self.

(** The selected row is in the window [handle_scroll] works with. *)
Definition in_window (height : Z) (self : EndpointViewer) : Prop :=
  scroll_offset self ≤ current_row self < scroll_offset self + (height - 10).


(** What the tool delivered, as [get_endpoints] hands it on. *)
Definition fetched (tool : result (list endpoint)) : list endpoint :=
  match tool with
  | Ok l => l
  | Raise _ => []
  end.

(** Ascending order under a key function that may raise. *)
Definition ascending_by (key : endpoint → result Z) (l : list endpoint) : Prop :=
  StronglySorted (λ x y, ∃ kx ky, key x = Ok kx ∧ key y = Ok ky ∧ kx ≤ ky) l.

(** The sort key as the specification words it: the integer after the last
    ['-'] of the name, and a sentinel when the name has none. *)
Definition spec_sort_key (sentinel : Z) (x : endpoint) : result Z :=
  name ← dict_index x "name" ;
  if str_contains "-" name then
    match last (str_split "-" name) with
    | Some field => int field
    | None => Raise IndexError
    end
  else Ok sentinel.

(** ** What is written on the screen *)

(** [s[:n]]: the first [n] characters, or all but the last [-n] when [n]
    is negative. *)
Fixpoint str_take (n : nat) (s : string) : string :=
  match n, s with
  | O, _ => EmptyString
  | S _, EmptyString => EmptyString
  | S n', String c s' => String c (str_take n' s')
  end.

Definition str_slice_to (n : Z) (s : string) : string :=
  let stop := if n <? 0 then Z.max 0 (Z.of_nat (String.length s) + n) else n in
  str_take (Z.to_nat stop) s.

(** [" " * n]. *)
Fixpoint spaces (n : nat) : string :=
  match n with
  | O => EmptyString
  | S n' => String " " (spaces n')
  end.

(** The format [f"{s:<{w}}"]: [s] padded with spaces on the right to [w]
    characters, and [s] itself when it is longer. *)
Definition str_ljust (w : Z) (s : string) : string :=
  s +:+ spaces (Z.to_nat (w - Z.of_nat (String.length s))).

(** The colour pairs the constructor sets up. *)
Inductive color : Type := CYAN | WHITE | YELLOW | GREEN | RED | BLUE | MAGENTA.

(** The pictographs of [status_icons], and the one for an unknown status. *)
Inductive icon : Type := HOURGLASS | CHECK_MARK | CROSS_MARK | ARROWS | QUESTION_MARK.

(** The dict of [get_status_color]. *)
Definition colors : gmap string color :=
  {[ "PENDING_ACCEPT" := YELLOW; "READY" := GREEN;
     "FAILED" := RED; "PROVISIONING" := BLUE ]}.

(** [get_status_color]: [colors.get(status, self.WHITE)]. *)
Definition get_status_color (status : string) : color :=
  match colors !! status with
  | Some c => c
  | None => WHITE
  end.

(** The dict [status_icons] of [draw_header] and [draw_table]. *)
Definition status_icons : gmap string icon :=
  {[ "PENDING_ACCEPT" := HOURGLASS; "READY" := CHECK_MARK;
     "FAILED" := CROSS_MARK; "PROVISIONING" := ARROWS ]}.

(** [status_icons.get(status, ...)] with the question mark as default. *)
Definition status_icon (status : string) : icon :=
  match status_icons !! status with
  | Some i => i
  | None => QUESTION_MARK
  end.

(** One line of the status summary: where it is written and what it
    shows. *)
Record status_line : Type := {
  sl_y : Z;
  sl_icon : icon;
  sl_status : string;
  sl_count : Z;
  sl_bar_length : Z;
  sl_color : color
}.

(** The [for] of [draw_header] from row [y] on: a line is written only
    above the last row of the terminal, and [y] advances either way. *)
Fixpoint draw_status_lines (y height : Z) (counts : list (string * Z)) : list status_line :=
  match counts with
  | [] => []
  | (status, count) :: counts' =>
      let icon := status_icon status in
      let color := get_status_color status in
      let bar_length := Z.min 20 (count / 3) in
      (if y <? height - 1 then
         [ {| sl_y := y; sl_icon := icon; sl_status := status; sl_count := count;
              sl_bar_length := bar_length; sl_color := color |} ]
       else []) ++ draw_status_lines (y + 1) height counts'
  end.

(** The status lines [draw_header] writes. *)
Definition draw_header_lines (height : Z) (self : EndpointViewer) : list status_line :=
  match endpoints self with
  | [] => []
  | _ :: _ => draw_status_lines 3 height (status_counts self)
  end.

(** The column widths and positions of [draw_table]. *)
Definition name_width : Z := 12.
Definition id_width : Z := 15.
Definition status_width : Z := 18.
Definition ip_width : Z := 16.
Definition conn_id_width (width : Z) : Z :=
  Z.max 20 (width - name_width - id_width - status_width - ip_width - 8).
Definition name_pos : Z := 0.
Definition id_pos : Z := name_width + 1.
Definition status_pos : Z := id_pos + id_width + 1.
Definition ip_pos : Z := status_pos + status_width + 1.
Definition conn_pos : Z := ip_pos + ip_width + 1.

(** [l[i]] for any integer [i]: a negative index counts from the end. *)
Definition list_index_Z {A : Type} (l : list A) (i : Z) : result A :=
  let j := if i <? 0 then i + Z.of_nat (length l) else i in
  if j <? 0 then Raise IndexError else list_index l (Z.to_nat j).

(** One row of the table: its screen line, its record, whether it is in
    reverse video, and the text of each cell.  The last cell is written only
    when its column is on the screen. *)
Record table_row : Type := {
  tr_y : Z;
  tr_index : Z;
  tr_reverse : bool;
  tr_name : string;
  tr_id : string;
  tr_icon : icon;
  tr_status : string;
  tr_color : color;
  tr_ip : string;
  tr_conn : option string
}.

(** The body of the [for] of [draw_table] after the two [break]s. *)
Definition draw_row (width : Z) (self : EndpointViewer) (yi : Z * Z) : result table_row :=
  let y := yi.1 in
  let row_index := yi.2 in
  ep ← list_index_Z (endpoints self) row_index ;
  let name := dict_get ep "name" "" in
  let ep_id := str_slice_to (id_width - 1) (dict_get ep "id" "") in
  let status := dict_get ep "phase" "UNKNOWN" in
  let ip := dict_get ep "gcp_private_service_connect_endpoint_ip_address" "" in
  let conn_id :=
    str_slice_to (conn_id_width width - 1)
      (dict_get ep "gcp_private_service_connect_endpoint_connection_id" "") in
  Ok {| tr_y := y; tr_index := row_index;
        tr_reverse := (row_index =? current_row self);
        tr_name := str_ljust name_width name;
        tr_id := str_ljust id_width ep_id;
        tr_icon := status_icon status;
        tr_status := str_ljust (status_width - 3) status;
        tr_color := get_status_color status;
        tr_ip := str_ljust ip_width ip;
        tr_conn :=
          if conn_pos <? width - 1 then
            Some (str_slice_to (width - conn_pos - 1)
                    (str_ljust (conn_id_width width) conn_id))
          else None |}.

(** The rows of the table of one frame with their cells, in the order they
    are written. *)
Fixpoint draw_row_cells (width : Z) (self : EndpointViewer) (rows : list (Z * Z))
    : result (list table_row) :=
  match rows with
  | [] => Ok []
  | yi :: rows' =>
      r ← draw_row width self yi ;
      rs ← draw_row_cells width self rows' ;
      Ok (r :: rs)
  end.

Definition frame_table (width height : Z) (self : EndpointViewer) : result (list table_row) :=
  draw_row_cells width self (frame_rows height self).

(** The text about auto-refresh in the footer. *)
Inductive refresh_text : Type :=
| NextIn (seconds : Z)
| Refreshing
| AutoRefreshOff.

(** [draw_footer]: nothing on a terminal of fewer than three rows; else
    the rule on row [footer_y - 1], the refresh text and its colour on
    [footer_y], the controls on [footer_y + 1].  [now] is the clock read for
    the countdown; the [int] of the countdown is outside the [try]. *)
Definition draw_footer (height : Z) (now : float) (self : EndpointViewer)
    : result (option (Z * refresh_text * color)) :=
  if height <? 3 then Ok None
  else
    let footer_y := height - 2 in
    if auto_refresh self then
      let time_until_refresh :=
        PrimFloat.sub (float_of_int (refresh_interval self))
                      (PrimFloat.sub now (last_refresh_time self)) in
      if PrimFloat.ltb 0%float time_until_refresh then
        seconds ← int_of_float time_until_refresh ;
        Ok (Some (footer_y, NextIn seconds, GREEN))
      else Ok (Some (footer_y, Refreshing, YELLOW))
    else Ok (Some (footer_y, AutoRefreshOff, RED)).

(** The states the loop can be in: the constructor's, and those after an
    iteration that goes on. *)
Inductive reachable : EndpointViewer → Prop :=
| reachable_init t0 t1 tool now self :
    init t0 t1 tool now = Ok self → reachable self
| reachable_step f self self' :
    reachable self → run_iteration f self = Ok (Continue self') → reachable self'.

(** ** Proof automation *)

(** Case analysis on the integer tests of the code. *)
Ltac zcases :=
  repeat match goal with
  | |- context [?a <? ?b] => destruct (Z.ltb_spec a b)
  | |- context [?a >=? ?b] => destruct (Z.geb_spec a b)
  | |- context [?a >? ?b] => destruct (Z.gtb_spec a b)
  end.

Ltac scroll_solve :=
  unfold handle_scroll, set_scroll_offset, set_current_row,
         selection_valid, in_window, len in *;
  simpl in *; repeat (zcases; simpl in *);
  repeat split; try f_equal; try lia.

(** ** Facts about the sort *)

Section Sorting.

Implicit Types (d : list (Z * endpoint)) (l : list endpoint).

Lemma insert_by_key_perm kx d : insert_by_key kx d ≡ₚ kx :: d.
Proof.
  induction d as [|ky d IH]; simpl; [done|].
  destruct (kx.1 <=? ky.1); [done|].
  rewrite IH. apply Permutation_swap.
Qed.

Lemma sort_decorated_perm d : sort_decorated d ≡ₚ d.
Proof.
  induction d as [|kx d IH]; simpl; [done|].
  unfold sort_decorated in *. simpl.
  rewrite insert_by_key_perm. by rewrite IH.
Qed.

Lemma insert_by_key_sorted kx d :
  StronglySorted (λ a b, a.1 ≤ b.1) d →
  StronglySorted (λ a b, a.1 ≤ b.1) (insert_by_key kx d).
Proof.
  induction d as [|ky d IH]; intros Hs; simpl.
  - repeat constructor.
  - apply StronglySorted_cons in Hs as [Hky Hd].
    destruct (Z.leb_spec kx.1 ky.1) as [Hle|Hgt].
    + apply StronglySorted_cons. split.
      * constructor; [done|].
        eapply Forall_impl; [exact Hky|]. simpl. intros; lia.
      * by apply StronglySorted_cons.
    + apply StronglySorted_cons. split; [|by apply IH].
      rewrite insert_by_key_perm. constructor; [lia|done].
Qed.

Lemma sort_decorated_sorted d :
  StronglySorted (λ a b, a.1 ≤ b.1) (sort_decorated d).
Proof.
  induction d as [|kx d IH]; simpl; [constructor|].
  by apply insert_by_key_sorted.
Qed.

(** Stability: the records of one key keep their order. *)
Lemma insert_by_key_filter (k : Z) kx d :
  StronglySorted (λ a b, a.1 ≤ b.1) d →
  filter (λ a, a.1 = k) (insert_by_key kx d) = filter (λ a, a.1 = k) (kx :: d).
Proof.
  induction d as [|ky d IH]; intros Hs; simpl; [done|].
  apply StronglySorted_cons in Hs as [Hky Hd].
  destruct (Z.leb_spec kx.1 ky.1) as [Hle|Hgt]; [done|].
  rewrite !filter_cons. rewrite filter_cons in IH.
  destruct (decide (ky.1 = k)) as [Heq|Hne].
  - rewrite (IH Hd). destruct (decide (kx.1 = k)); [lia|done].
  - by rewrite (IH Hd).
Qed.

Lemma sort_decorated_stable (k : Z) d :
  filter (λ a, a.1 = k) (sort_decorated d) = filter (λ a, a.1 = k) d.
Proof.
  induction d as [|kx d IH]; [done|].
  change (sort_decorated (kx :: d)) with (insert_by_key kx (sort_decorated d)).
  rewrite insert_by_key_filter by apply sort_decorated_sorted.
  by rewrite !filter_cons, IH.
Qed.

(** [decorate] pairs each record with its key, or raises with the sort. *)
Lemma decorate_ok l :
  Forall (λ x, is_ok (sort_key x)) l →
  ∃ d, decorate l = Ok d ∧ d.*2 = l ∧ Forall (λ kx, sort_key kx.2 = Ok kx.1) d.
Proof.
  induction 1 as [|x l Hx _ (d & Hd & Hl & Hk)]; simpl.
  - by exists [].
  - destruct (sort_key x) as [k|e] eqn:Ek; [|done].
    rewrite Hd. exists ((k, x) :: d). simpl.
    split_and!; [done|by f_equal|by constructor].
Qed.

Lemma list_sort_ok l :
  Forall (λ x, is_ok (sort_key x)) l →
  ∃ l', list_sort l = Ok l' ∧ l' ≡ₚ l ∧ ascending_by sort_key l'.
Proof.
  intros Hl. destruct (decorate_ok l Hl) as (d & Hd & Hdl & Hk).
  exists ((sort_decorated d).*2). unfold list_sort. rewrite Hd. simpl.
  split_and!; [done| |].
  - by rewrite sort_decorated_perm, Hdl.
  - assert (Hk' : Forall (λ kx, sort_key kx.2 = Ok kx.1) (sort_decorated d))
      by by rewrite sort_decorated_perm.
    pose proof (sort_decorated_sorted d) as Hs.
    unfold ascending_by.
    induction Hs as [|kx s Hs IH Hle]; simpl; [constructor|].
    apply Forall_cons in Hk' as [Hkx Hk'].
    constructor; [by apply IH|].
    apply Forall_fmap. rewrite Forall_forall in Hle, Hk'.
    apply Forall_forall. intros ky Hin. simpl.
    exists kx.1, ky.1. split_and!; [done|by apply Hk'|by apply Hle].
Qed.

End Sorting.

(** ** Facts about the sort key *)

Section SortKey.

Lemma str_contains_app_dash (a t : string) :
  str_contains "-" (a +:+ String "-" t) = true.
Proof. induction a as [|c a IH]; simpl; [done|]. by destruct (Ascii.eqb c "-"). Qed.

Lemma str_split_no_dash (s : string) :
  str_contains "-" s = false → str_split "-" s = [s].
Proof.
  induction s as [|c s IH]; simpl; [done|].
  destruct (Ascii.eqb c "-"); [done|]. intros Hs. by rewrite IH.
Qed.

Lemma str_split_app_dash (a t : string) :
  str_contains "-" a = false →
  str_split "-" (a +:+ String "-" t) = a :: str_split "-" t.
Proof.
  induction a as [|c a IH]; simpl; [done|].
  destruct (Ascii.eqb c "-"); [done|]. intros Ha. by rewrite IH.
Qed.

Lemma str_split_head (b rest : string) :
  str_contains "-" b = false →
  rest = "" ∨ (∃ r, rest = String "-" r) →
  ∃ fs, str_split "-" (b +:+ rest) = b :: fs.
Proof.
  intros Hb Hrest. induction b as [|c b IH]; simpl in *.
  - destruct Hrest as [->|[r ->]]; simpl; eauto.
  - destruct (Ascii.eqb c "-"); [done|].
    destruct (IH Hb) as [fs ->]. eauto.
Qed.

(** A name without ['-'] has the key 999. *)
Lemma sort_key_no_dash (x : endpoint) (n : string) :
  x !! "name" = Some n → str_contains "-" n = false → sort_key x = Ok 999.
Proof.
  intros Hx Hn. unfold sort_key, dict_index. rewrite Hx. simpl. by rewrite Hn.
Qed.

(** A name with a ['-'] has the value of the field between its first
    ['-'] and its second, or the end of the name, as its key. *)
Lemma sort_key_second_field (x : endpoint) (a b rest : string) :
  x !! "name" = Some (a +:+ String "-" (b +:+ rest)) →
  str_contains "-" a = false →
  str_contains "-" b = false →
  rest = "" ∨ (∃ r, rest = String "-" r) →
  sort_key x = int b.
Proof.
  intros Hx Ha Hb Hrest. unfold sort_key, dict_index. rewrite Hx. simpl.
  rewrite str_contains_app_dash, str_split_app_dash by done.
  destruct (str_split_head b rest Hb Hrest) as [fs ->]. done.
Qed.

(** With the guard of the key function, the subscript [[1]] is in range. *)
Lemma str_split_second (s : string) :
  str_contains "-" s = true → is_ok (list_index (str_split "-" s) 1).
Proof.
  induction s as [|c s IH]; simpl; [done|].
  destruct (Ascii.eqb c "-").
  - intros _. by destruct s as [|d s]; simpl; [|destruct (Ascii.eqb d "-"), (str_split "-" s)].
  - intros Hs. specialize (IH Hs). unfold list_index in *.
    by destruct (str_split "-" s) as [|f [|g fs]].
Qed.

End SortKey.

(** ** Facts about loading and drawing *)

Section Load.

Lemma load_data_ok tool now self :
  Forall (λ x, is_ok (sort_key x)) (fetched tool) →
  ∃ l', load_data tool now self = Ok (set_loaded l' now self) ∧
        l' ≡ₚ fetched tool ∧ ascending_by sort_key l'.
Proof.
  intros Hk. unfold load_data, get_endpoints.
  destruct tool as [[|x l]|e]; simpl in *.
  - exists []. split_and!; [done..|constructor].
  - destruct (list_sort_ok (x :: l) Hk) as (l' & -> & Hp & Hs). by exists l'.
  - exists []. split_and!; [done..|constructor].
Qed.

Lemma draw_rows_in_range range table_start_y height self :
  Forall (λ i, 0 ≤ i) range →
  Forall (λ r, scroll_offset self ≤ r.2 < len self)
         (draw_rows range table_start_y height self).
Proof.
  induction 1 as [|i range Hi _ IH]; simpl; [constructor|].
  destruct (Z.geb_spec (scroll_offset self + i) (len self)); [constructor|].
  destruct (table_start_y + i >=? height - 3); [constructor|].
  constructor; [simpl; lia|done].
Qed.

(** A frame reads no record outside the list. *)
Lemma frame_rows_in_range height self :
  Forall (λ r, scroll_offset self ≤ r.2 < len self) (frame_rows height self).
Proof.
  unfold frame_rows, draw_table. destruct (endpoints self); [constructor|].
  apply draw_rows_in_range, Forall_forall. intros i Hi.
  apply elem_of_seqZ in Hi. lia.
Qed.

Lemma decorate_inv l d :
  decorate l = Ok d →
  d.*2 = l ∧ Forall (λ kx, sort_key kx.2 = Ok kx.1) d ∧
  Forall (λ x, is_ok (sort_key x)) l.
Proof.
  revert d. induction l as [|x l IH]; intros d; simpl.
  - intros [= <-]. by repeat constructor.
  - destruct (sort_key x) as [k|e] eqn:Ek; simpl; [|done].
    destruct (decorate l) as [d'|e] eqn:Ed; simpl; [|done].
    intros [= <-]. destruct (IH d' eq_refl) as (Hl & Hk & Hok). simpl.
    split_and!; [by f_equal|by constructor|].
    constructor; [by rewrite Ek|done].
Qed.

Lemma filter_decorated (k : Z) (d : list (Z * endpoint)) :
  Forall (λ kx, sort_key kx.2 = Ok kx.1) d →
  filter (λ x, sort_key x = Ok k) (d.*2) = (filter (λ kx, kx.1 = k) d).*2.
Proof.
  induction 1 as [|[k' x] d Hk _ IH]; [done|].
  rewrite fmap_cons, !filter_cons. simpl in *. rewrite Hk.
  destruct (decide (k' = k)) as [->|Hne].
  - rewrite decide_True by done. by rewrite fmap_cons, IH.
  - rewrite decide_False by congruence. done.
Qed.

Lemma list_sort_ok_stable (l : list endpoint) :
  Forall (λ x, is_ok (sort_key x)) l →
  ∃ l', list_sort l = Ok l' ∧ l' ≡ₚ l ∧ ascending_by sort_key l' ∧
        ∀ k, filter (λ x, sort_key x = Ok k) l' = filter (λ x, sort_key x = Ok k) l.
Proof.
  intros Hok. destruct (list_sort_ok l Hok) as (l' & Hl' & Hp & Hs).
  exists l'. split_and!; [done..|].
  destruct (decorate_ok l Hok) as (d & Hd & Hl & Hk).
  unfold list_sort in Hl'. rewrite Hd in Hl'. simpl in Hl'. injection Hl' as <-.
  intros k. rewrite filter_decorated by by rewrite sort_decorated_perm.
  rewrite sort_decorated_stable, <- filter_decorated by done. by rewrite Hl.
Qed.

(** A load whose keys are computable returns the records sorted, each key's
    records in the order the tool listed them. *)
Lemma load_data_ok_stable tool now self :
  Forall (λ x, is_ok (sort_key x)) (fetched tool) →
  ∃ l', load_data tool now self = Ok (set_loaded l' now self) ∧
        l' ≡ₚ fetched tool ∧ ascending_by sort_key l' ∧
        ∀ k, filter (λ x, sort_key x = Ok k) l'
             = filter (λ x, sort_key x = Ok k) (fetched tool).
Proof.
  intros Hk. unfold load_data, get_endpoints.
  destruct tool as [[|x l]|e]; simpl in *.
  - exists []. split_and!; [done..|constructor|done].
  - destruct (list_sort_ok_stable (x :: l) Hk) as (l' & -> & Hp & Hs & Hst).
    by exists l'.
  - exists []. split_and!; [done..|constructor|done].
Qed.

Lemma StronglySorted_lookup_lt {A} (R : relation A) (l : list A) (i j : nat) a b :
  StronglySorted R l → (i < j)%nat → l !! i = Some a → l !! j = Some b → R a b.
Proof.
  intros Hs. revert i j. induction Hs as [|x l Hs IH Hx]; intros i j Hij Hi Hj.
  - done.
  - destruct j as [|j]; [lia|]. destruct i as [|i]; simpl in *.
    + injection Hi as <-. rewrite Forall_forall in Hx.
      apply Hx. by apply list_elem_of_lookup_2 in Hj.
    + apply (IH i j); [lia|done..].
Qed.

(** In a list in ascending order a record of smaller key comes earlier. *)
Lemma ascending_by_lookup key (l : list endpoint) (i j : nat) x y kx ky :
  ascending_by key l → l !! i = Some x → l !! j = Some y →
  key x = Ok kx → key y = Ok ky → kx < ky → (i < j)%nat.
Proof.
  intros Hs Hi Hj Hx Hy Hlt.
  destruct (lt_eq_lt_dec i j) as [[Hij|Hij]|Hij]; [done| |].
  - subst j. rewrite Hi in Hj. injection Hj as <-. rewrite Hx in Hy.
    injection Hy as <-. lia.
  - destruct (StronglySorted_lookup_lt _ _ _ _ _ _ Hs Hij Hj Hi)
      as (ky' & kx' & Hy' & Hx' & Hle).
    rewrite Hx in Hx'. rewrite Hy in Hy'. simplify_eq. lia.
Qed.

End Load.

(** ** Loading *)

(** C1, as the code has it: a load whose records all have a computable sort
    key raises nothing, replaces the records and leaves the selected row and
    the scroll offset exactly as they were: nothing clamps or reconciles them
    at a load.  They are therefore in the new valid range exactly when they
    already lay in it, and the frame drawn next reads no record outside the
    new list. *)
Theorem load_data_keeps_selection tool now self :
  Forall (λ x, is_ok (sort_key x)) (fetched tool) →
  ∃ self',
    load_data tool now self = Ok self' ∧
    current_row self' = current_row self ∧
    scroll_offset self' = scroll_offset self ∧
    len self' = Z.of_nat (length (fetched tool)) ∧
    (0 ≤ current_row self' < len self' ↔
     0 ≤ current_row self < Z.of_nat (length (fetched tool))) ∧
    (0 ≤ scroll_offset self' ≤ Z.max 0 (len self' - 1) ↔
     0 ≤ scroll_offset self ≤ Z.max 0 (Z.of_nat (length (fetched tool)) - 1)) ∧
    ∀ height,
      Forall (λ r, scroll_offset self' ≤ r.2 < len self') (frame_rows height self').
Proof.
  intros Hk. destruct (load_data_ok tool now self Hk) as (l' & Hload & Hperm & _).
  exists (set_loaded l' now self).
  assert (Hlen : len (set_loaded l' now self) = Z.of_nat (length (fetched tool))).
  { unfold len. simpl. by rewrite Hperm. }
  split_and!; try done.
  - simpl. by rewrite Hlen.
  - simpl. by rewrite Hlen.
  - intros height. apply frame_rows_in_range.
Qed.

Lemma load_data_keeps_selection_witness :
  ∃ self',
    load_data (Ok [named "ep-1"]) 1%float
      (showing [named "ep-1"; named "ep-2"; named "ep-3"; named "ep-4"] 3 3) = Ok self' ∧
    current_row self' = 3 ∧ scroll_offset self' = 3 ∧ len self' = 1.
Proof.
  destruct (load_data_keeps_selection (Ok [named "ep-1"]) 1%float
              (showing [named "ep-1"; named "ep-2"; named "ep-3"; named "ep-4"] 3 3))
    as (self' & H1 & H2 & H3 & H4 & _).
  - repeat constructor.
  - exists self'. split_and!; assumption.
Defined.

(** C1 fails as stated: with the last of four rows selected, loading a
    single record leaves the selection on row 3 and the offset at 3, both
    outside the range of the new list. *)
Lemma load_data_does_not_clamp :
  ∃ self',
    load_data (Ok [named "ep-1"]) 1%float
      (showing [named "ep-1"; named "ep-2"; named "ep-3"; named "ep-4"] 3 3) = Ok self' ∧
    ¬ (0 ≤ current_row self' < len self') ∧
    ¬ (0 ≤ scroll_offset self' ≤ Z.max 0 (len self' - 1)).
Proof.
  eexists. split; [vm_compute; reflexivity|].
  split; intros [_ H]; vm_compute in H;
    first [discriminate H | apply H; reflexivity].
Qed.

(** C2, as the code has it: a load sorts the records in ascending order of
    the key of [load_data], and stably: the records of one key keep the
    order in which the tool listed them.  The key is the integer value of
    the field between the first ['-'] of the name and the next one (or the
    end of the name), and 999 for a name without ['-'].  A record of
    smaller key comes earlier: a name without ['-'] follows every name
    numbered below 999 and precedes every name numbered above 999.  The
    names ep-3, ep-1, ep-10, other are sorted to ep-1, ep-3, ep-10, other. *)
Theorem load_data_sorts_by_second_field :
  (∀ tool now self,
     Forall (λ x, is_ok (sort_key x)) (fetched tool) →
     ∃ self', load_data tool now self = Ok self' ∧
              endpoints self' ≡ₚ fetched tool ∧
              ascending_by sort_key (endpoints self') ∧
              (∀ k, filter (λ x, sort_key x = Ok k) (endpoints self')
                    = filter (λ x, sort_key x = Ok k) (fetched tool)) ∧
              (∀ (i j : nat) x y kx ky,
                 endpoints self' !! i = Some x → endpoints self' !! j = Some y →
                 sort_key x = Ok kx → sort_key y = Ok ky →
                 kx < ky → (i < j)%nat)) ∧
  (∀ (x : endpoint) n,
     x !! "name" = Some n → str_contains "-" n = false → sort_key x = Ok 999) ∧
  (∀ (x : endpoint) a b rest,
     x !! "name" = Some (a +:+ String "-" (b +:+ rest)) →
     str_contains "-" a = false →
     str_contains "-" b = false →
     rest = "" ∨ (∃ r, rest = String "-" r) →
     sort_key x = int b) ∧
  (∀ now self,
     load_data (Ok [named "ep-3"; named "ep-1"; named "ep-10"; named "other"]) now self
     = Ok (set_loaded [named "ep-1"; named "ep-3"; named "ep-10"; named "other"] now self)).
Proof.
  split_and!.
  - intros tool now self Hk.
    destruct (load_data_ok_stable tool now self Hk) as (l' & Hload & Hperm & Hs & Hst).
    exists (set_loaded l' now self). split_and!; [done..|].
    intros i j x y kx ky. by apply ascending_by_lookup.
  - apply sort_key_no_dash.
  - apply sort_key_second_field.
  - intros now self. unfold load_data. vm_compute get_endpoints.
    by vm_compute list_sort.
Qed.

Lemma load_data_sorts_by_second_field_witness :
  (∃ self', load_data (Ok [named "other"; named "ep-999"; named "ep-998"]) 0%float fresh
            = Ok self' ∧
            endpoints self' ≡ₚ [named "other"; named "ep-999"; named "ep-998"] ∧
            ascending_by sort_key (endpoints self') ∧
            filter (λ x, sort_key x = Ok 999) (endpoints self')
            = [named "other"; named "ep-999"]) ∧
  sort_key (named "other") = Ok 999 ∧
  sort_key (named "a-2-1") = int "2".
Proof.
  destruct load_data_sorts_by_second_field as (Hsort & Hplain & Hfield & _).
  split_and!.
  - destruct (Hsort (Ok [named "other"; named "ep-999"; named "ep-998"]) 0%float fresh)
      as (self' & Hl & Hp & Hs & Hst & _); [repeat constructor|].
    exists self'. split_and!; [done..|]. rewrite Hst. reflexivity.
  - apply (Hplain (named "other") "other"); reflexivity.
  - apply (Hfield (named "a-2-1") "a" "2" "-1"); [reflexivity..|].
    right. by exists "1".
Defined.

(** C2 fails as stated.  The key is not taken after the last ['-']: a-2-1
    and b-1-2 are sorted to b-1-2, a-2-1, which descends in the integer after
    the last ['-'].  And a name without suffix does not sort last: other is
    put before ep-1000. *)
Lemma sort_is_not_by_last_suffix :
  (∃ self',
     load_data (Ok [named "a-2-1"; named "b-1-2"]) 0%float fresh = Ok self' ∧
     ¬ ascending_by (spec_sort_key 999) (endpoints self')) ∧
  load_data (Ok [named "ep-1000"; named "other"]) 0%float fresh
  = Ok (set_loaded [named "other"; named "ep-1000"] 0%float fresh).
Proof.
  split.
  - eexists. split; [vm_compute; reflexivity|].
    intros Hs. apply StronglySorted_cons in Hs as [Hle _].
    apply Forall_cons in Hle as [(kx & ky & Hx & Hy & Hle) _].
    vm_compute in Hx, Hy. simplify_eq. lia.
  - vm_compute. reflexivity.
Qed.

(** C3, at the input where the code departs from it: a record named
    my-endpoint makes the key function raise [ValueError]; [load_data] lets
    it through and [main], which catches only [KeyboardInterrupt], ends with
    it, at the first load and at a refresh by key alike. *)
Theorem load_data_raises_on_worded_name :
  (∀ now self, load_data (Ok [named "my-endpoint"]) now self = Raise ValueError) ∧
  (∀ t0 t1 now frames,
     main t0 t1 (Ok [named "my-endpoint"]) now frames = Raise ValueError) ∧
  (∀ height t self,
     run_iteration (key_frame height t (Ok [named "my-endpoint"]) (Ok ord_r)) self
     = Raise ValueError).
Proof.
  assert (Hload : ∀ now self,
            load_data (Ok [named "my-endpoint"]) now self = Raise ValueError).
  { intros now self. unfold load_data. vm_compute get_endpoints.
    by vm_compute list_sort. }
  split_and!; [done| |].
  - intros t0 t1 now frames. unfold main, init. by rewrite Hload.
  - intros height t self. unfold run_iteration. simpl.
    destruct (auto_refresh_due t self); rewrite ?Hload; [done|].
    simpl. unfold dispatch. simpl. by rewrite Hload.
Qed.

(** The empty input is valid and yields the empty table state. *)
Lemma load_data_empty now self :
  load_data (Ok []) now self = Ok (set_loaded [] now self).
Proof. reflexivity. Qed.

(** ** Scrolling and navigation *)

Section Scroll.

Lemma handle_scroll_fields height self :
  endpoints (handle_scroll height self) = endpoints self ∧
  current_row (handle_scroll height self) = current_row self ∧
  len (handle_scroll height self) = len self.
Proof. unfold handle_scroll, len. by zcases. Qed.

(** After [handle_scroll] a valid selection is in the window, and the
    offset is in its range. *)
Lemma handle_scroll_in_window height self :
  1 ≤ height - 10 → selection_valid self →
  selection_valid (handle_scroll height self) ∧
  in_window height (handle_scroll height self) ∧
  0 ≤ scroll_offset (handle_scroll height self) ≤ Z.max 0 (len self - 1).
Proof. intros Hh Hv. destruct self. scroll_solve. Qed.

Lemma navigate_endpoints height key self :
  endpoints (navigate height key self) = endpoints self.
Proof.
  unfold navigate.
  repeat match goal with
         | |- context [if ?b then _ else _] => destruct b
         end;
    rewrite ?(proj1 (handle_scroll_fields _ _)); done.
Qed.


(** Keys other than q, r and t reach the navigation branches. *)
Lemma dispatch_navigation f key self :
  key ≠ ord_q → key ≠ ord_r → key ≠ ord_t →
  dispatch f key self = Ok (Continue (navigate (f_scroll_height f) key self)).
Proof.
  intros Hq Hr Ht. unfold dispatch.
  by rewrite (proj2 (Z.eqb_neq _ _) Hq), (proj2 (Z.eqb_neq _ _) Hr),
             (proj2 (Z.eqb_neq _ _) Ht).
Qed.

End Scroll.

(** C4, at the inputs where the code departs from it: with no records, End
    and Page Down set the selected row to -1 (the last index of an empty
    list, with no guard); Up, Down, Page Up and Home leave row and offset
    at 0. *)
Theorem navigate_empty_end_selects_minus_one :
  ∀ height,
    current_row (navigate height KEY_END (showing [] 0 0)) = -1 ∧
    current_row (navigate height KEY_NPAGE (showing [] 0 0)) = -1 ∧
    navigate height KEY_UP (showing [] 0 0) = showing [] 0 0 ∧
    navigate height KEY_DOWN (showing [] 0 0) = showing [] 0 0 ∧
    navigate height KEY_PPAGE (showing [] 0 0) = showing [] 0 0 ∧
    navigate height KEY_HOME (showing [] 0 0) = showing [] 0 0.
Proof.
  intros height. unfold navigate, showing. simpl.
  split_and!; try reflexivity.
  unfold handle_scroll, set_scroll_offset, set_current_row, set_loaded, len. simpl.
  zcases; simpl in *; f_equal; lia.
Qed.

(** C5, as the code has it: when the window has at least one row (a
    terminal of 11 rows or more), [handle_scroll] applied twice gives what it
    gives applied once. *)
Theorem handle_scroll_idempotent height self :
  1 ≤ height - 10 →
  handle_scroll height (handle_scroll height self) = handle_scroll height self.
Proof. intros Hh. destruct self. scroll_solve. Qed.

Lemma handle_scroll_idempotent_witness :
  1 ≤ 20 - 10 ∧
  handle_scroll 20 (handle_scroll 20 (showing (replicate 30 (named "ep-1")) 25 3))
  = handle_scroll 20 (showing (replicate 30 (named "ep-1")) 25 3).
Proof.
  split; [lia|].
  apply (handle_scroll_idempotent 20 (showing (replicate 30 (named "ep-1")) 25 3)).
  lia.
Defined.

(** C5 fails as stated: on a terminal of 10 rows the window is empty, and
    with ten records, row 5 selected and offset 0 the first application
    gives offset 6 and the second gives offset 5. *)
Lemma handle_scroll_not_idempotent_without_rows :
  scroll_offset (handle_scroll 10 (showing (replicate 10 (named "ep-1")) 5 0)) = 6 ∧
  scroll_offset
    (handle_scroll 10 (handle_scroll 10 (showing (replicate 10 (named "ep-1")) 5 0))) = 5 ∧
  scroll_offset
    (handle_scroll 10 (handle_scroll 10 (showing (replicate 10 (named "ep-1")) 5 0)))
  ≠ scroll_offset (handle_scroll 10 (showing (replicate 10 (named "ep-1")) 5 0)).
Proof. split_and!; vm_compute; congruence. Qed.

(** C8, as the code has it: with 25 records on a terminal of 20 rows (a
    window of 10), from any state, End and then Page Up three times select
    rows 24, 14, 4 and then 0, the third step being clamped at the first row:
    the selected row is 0, the offset is 0, and the window holds rows 0 to 9,
    row 0 among them and row 15 not. *)
Theorem end_then_three_pages_up self :
  len self = 25 →
  current_row (press 20 [KEY_END; KEY_PPAGE; KEY_PPAGE; KEY_PPAGE] self) = 0 ∧
  scroll_offset (press 20 [KEY_END; KEY_PPAGE; KEY_PPAGE; KEY_PPAGE] self) = 0 ∧
  in_window 20 (press 20 [KEY_END; KEY_PPAGE; KEY_PPAGE; KEY_PPAGE] self) ∧
  ¬ (scroll_offset (press 20 [KEY_END; KEY_PPAGE; KEY_PPAGE; KEY_PPAGE] self) ≤ 15
     < scroll_offset (press 20 [KEY_END; KEY_PPAGE; KEY_PPAGE; KEY_PPAGE] self) + (20 - 10)).
Proof.
  intros Hlen.
  assert (Hend : current_row (press 20 [KEY_END] self) = 24 ∧
                 15 ≤ scroll_offset (press 20 [KEY_END] self) ∧
                 len (press 20 [KEY_END] self) = 25).
  { unfold press, navigate. simpl. destruct self. scroll_solve. }
  assert (Hup : ∀ s, len s = 25 → 10 ≤ current_row s < 25 →
            current_row s - 10 < scroll_offset s →
            current_row (navigate 20 KEY_PPAGE s) = current_row s - 10 ∧
            scroll_offset (navigate 20 KEY_PPAGE s) = current_row s - 10 ∧
            len (navigate 20 KEY_PPAGE s) = 25).
  { clear. intros s Hs Hr Ho. unfold navigate. simpl. destruct s. scroll_solve. }
  assert (Hlast : ∀ s, len s = 25 → 0 ≤ current_row s < 10 →
            current_row (navigate 20 KEY_PPAGE s) = 0 ∧
            scroll_offset (navigate 20 KEY_PPAGE s) = 0).
  { clear. intros s Hs Hr. unfold navigate. simpl. destruct s. scroll_solve. }
  change (press 20 [KEY_END; KEY_PPAGE; KEY_PPAGE; KEY_PPAGE] self)
    with (navigate 20 KEY_PPAGE (navigate 20 KEY_PPAGE
            (navigate 20 KEY_PPAGE (press 20 [KEY_END] self)))).
  destruct Hend as (Hr0 & Ho0 & Hl0).
  destruct (Hup _ Hl0) as (Hr1 & Ho1 & Hl1); [lia..|].
  destruct (Hup _ Hl1) as (Hr2 & Ho2 & Hl2); [lia..|].
  destruct (Hlast _ Hl2) as (Hr3 & Ho3); [lia|].
  unfold in_window. rewrite Hr3, Ho3. lia.
Qed.

Lemma end_then_three_pages_up_witness :
  current_row (press 20 [KEY_END; KEY_PPAGE; KEY_PPAGE; KEY_PPAGE]
                 (showing (replicate 25 (named "ep-1")) 7 2)) = 0.
Proof.
  apply (end_then_three_pages_up (showing (replicate 25 (named "ep-1")) 7 2)).
  reflexivity.
Defined.

(** C8 fails as stated: starting on the first of 25 rows, End and three
    Page Ups leave the selected row at 0, not 15. *)
Lemma end_then_three_pages_up_is_not_15 :
  current_row (press 20 [KEY_END; KEY_PPAGE; KEY_PPAGE; KEY_PPAGE]
                 (showing (replicate 25 (named "ep-1")) 0 0)) ≠ 15.
Proof. vm_compute. discriminate. Qed.

(** ** The refresh clock *)

Section Refresh.

(** Nothing changes the interval the constructor sets. *)
Lemma load_data_refresh_interval tool now self self' :
  load_data tool now self = Ok self' → refresh_interval self' = refresh_interval self.
Proof.
  unfold load_data. destruct (get_endpoints tool) as [l|e]; simpl; [|done].
  destruct (match l with [] => Ok l | _ :: _ => list_sort l end) as [l'|e];
    simpl; [|done].
  by intros [= <-].
Qed.

Lemma init_refresh_interval t0 t1 tool now self :
  init t0 t1 tool now = Ok self → refresh_interval self = 15.
Proof. intros H. by apply load_data_refresh_interval in H. Qed.

Lemma navigate_refresh_interval height key self :
  refresh_interval (navigate height key self) = refresh_interval self.
Proof.
  unfold navigate, handle_scroll.
  repeat match goal with
         | |- context [if ?b then _ else _] => destruct b
         end; done.
Qed.

Lemma run_iteration_refresh_interval f self self' :
  run_iteration f self = Ok (Continue self') →
  refresh_interval self' = refresh_interval self.
Proof.
  unfold run_iteration.
  destruct (auto_refresh_due (f_clock f) self).
  - destruct (load_data _ _ self) as [s1|e] eqn:E1; simpl; [|done].
    apply load_data_refresh_interval in E1.
    destruct (f_key f) as [key|e]; simpl; [|done].
    unfold dispatch.
    destruct (key =? ord_q); [done|].
    destruct (key =? ord_r).
    { destruct (load_data _ _ _) as [s2|e] eqn:E2; simpl; [|done].
      apply load_data_refresh_interval in E2. intros [= <-]. simpl in *. congruence. }
    destruct (key =? ord_t).
    { destruct (negb _); simpl; intros [= <-]; simpl; congruence. }
    intros [= <-]. rewrite navigate_refresh_interval. simpl. congruence.
  - simpl. destruct (f_key f) as [key|e]; simpl; [|done].
    unfold dispatch.
    destruct (key =? ord_q); [done|].
    destruct (key =? ord_r).
    { destruct (load_data _ _ _) as [s2|e] eqn:E2; simpl; [|done].
      apply load_data_refresh_interval in E2. intros [= <-]. simpl in *. congruence. }
    destruct (key =? ord_t).
    { destruct (negb _); simpl; intros [= <-]; simpl; congruence. }
    intros [= <-]. by rewrite navigate_refresh_interval.
Qed.

End Refresh.

(** C7, as the code has it: with the interval of 15 the constructor sets,
    an auto-refresh is due exactly when auto-refresh is on and the
    difference between the clock and the stored refresh time, as binary64
    subtraction computes it, is at least 15.  So after the refresh time is
    set to [t] with auto-refresh on, one is due at a clock reading exactly
    when the computed difference from [t] is at least 15, as it is not at
    [t + 14.9] and is at [t + 15.0] for [t = 1700000000.25]; with
    auto-refresh off none is ever due. *)
Theorem auto_refresh_due_iff now self :
  refresh_interval self = 15 →
  (auto_refresh_due now self = true ↔
   auto_refresh self = true ∧
   PrimFloat.leb 15%float (PrimFloat.sub now (last_refresh_time self)) = true) ∧
  (∀ t : float, auto_refresh self = true →
     (auto_refresh_due now (set_last_refresh_time t self) = true ↔
      PrimFloat.leb 15%float (PrimFloat.sub now t) = true)) ∧
  (auto_refresh self = true →
   auto_refresh_due (PrimFloat.add 1700000000.25%float 14.9%float)
     (set_last_refresh_time 1700000000.25%float self) = false ∧
   auto_refresh_due (PrimFloat.add 1700000000.25%float 15.0%float)
     (set_last_refresh_time 1700000000.25%float self) = true) ∧
  (auto_refresh self = false → auto_refresh_due now self = false).
Proof.
  intros Hi. unfold auto_refresh_due. cbn [last_refresh_time refresh_interval
    auto_refresh set_last_refresh_time]. rewrite Hi.
  change (float_of_int 15) with 15%float. split_and!.
  - apply andb_true_iff.
  - intros t ->. done.
  - intros ->. split; vm_compute; reflexivity.
  - by intros ->.
Qed.

Lemma auto_refresh_due_iff_witness :
  auto_refresh_due (PrimFloat.add 1700000000.25%float 14.9%float)
    (set_last_refresh_time 1700000000.25%float (set_auto_refresh true fresh)) = false ∧
  auto_refresh_due (PrimFloat.add 1700000000.25%float 15.0%float)
    (set_last_refresh_time 1700000000.25%float (set_auto_refresh true fresh)) = true.
Proof.
  apply (auto_refresh_due_iff 0%float (set_auto_refresh true fresh)); reflexivity.
Defined.

(** C7 fails as stated: the difference is rounded.  With the refresh time
    [t = 2147483640 + 2^-22] the sum [t + 15.0] is rounded down to
    2147483655 and the difference from [t] is computed as [15 - 2^-22], so no
    auto-refresh is due at the clock reading [t + 15.0]. *)
Lemma auto_refresh_not_due_at_t_plus_15 :
  PrimFloat.sub
    (PrimFloat.add (PrimFloat.add 2147483640%float 0x1p-22%float) 15.0%float)
    (PrimFloat.add 2147483640%float 0x1p-22%float)
  = PrimFloat.sub 15%float 0x1p-22%float ∧
  auto_refresh_due
    (PrimFloat.add (PrimFloat.add 2147483640%float 0x1p-22%float) 15.0%float)
    (set_last_refresh_time (PrimFloat.add 2147483640%float 0x1p-22%float)
       (set_auto_refresh true fresh)) = false.
Proof. split; vm_compute; reflexivity. Qed.

(** ** The header and the table *)

Section Drawing.

Lemma counter_add_keys k (c : list (string * Z)) :
  (counter_add k c).*1 = if decide (k ∈ c.*1) then c.*1 else (c.*1 ++ [k])%list.
Proof.
  induction c as [|[k' n] c IH].
  - case_decide as Hin; [by apply elem_of_nil in Hin|done].
  - simpl counter_add. destruct (String.eqb_spec k' k) as [->|Hne].
    + rewrite decide_True; [done|]. rewrite fmap_cons. apply list_elem_of_here.
    + rewrite !fmap_cons, IH. simpl fst.
      destruct (decide (k ∈ c.*1)) as [Hin|Hnin].
      * rewrite decide_True; [done|]. by apply list_elem_of_further.
      * rewrite decide_False; [done|].
        intros [?|?]%elem_of_cons; congruence.
Qed.

Lemma fold_counter_add_keys (l : list string) (c : list (string * Z)) :
  NoDup c.*1 →
  NoDup (fold_left (λ c k, counter_add k c) l c).*1 ∧
  ∀ k, k ∈ (fold_left (λ c k, counter_add k c) l c).*1 ↔ k ∈ c.*1 ∨ k ∈ l.
Proof.
  revert c. induction l as [|x l IH]; intros c Hc; simpl.
  - split; [done|]. intros k. rewrite elem_of_nil. tauto.
  - assert (Hadd : NoDup (counter_add x c).*1 ∧
                   ∀ k, k ∈ (counter_add x c).*1 ↔ k ∈ c.*1 ∨ k = x).
    { rewrite counter_add_keys. destruct (decide (x ∈ c.*1)) as [Hin|Hnin].
      - split; [done|]. intros k. split; [tauto|]. by intros [?| ->].
      - split.
        + apply NoDup_app. split_and!; [done| |apply NoDup_singleton].
          intros k Hk ->%list_elem_of_singleton. done.
        + intros k. by rewrite elem_of_app, list_elem_of_singleton. }
    destruct Hadd as [Hnd Hin]. destruct (IH _ Hnd) as [Hnd' Hin'].
    split; [done|]. intros k. rewrite Hin', Hin, elem_of_cons. tauto.
Qed.

(** The keys of a [Counter] are the distinct values counted. *)
Lemma Counter_keys (l : list string) :
  NoDup (Counter l).*1 ∧ ∀ k, k ∈ (Counter l).*1 ↔ k ∈ l.
Proof.
  destruct (fold_counter_add_keys l []) as [Hnd Hin]; [constructor|].
  split; [done|]. intros k. unfold Counter. rewrite Hin, elem_of_nil. tauto.
Qed.

Lemma fold_left_count {A} (l : list A) (y : Z) :
  fold_left (λ y _, y + 1) l y = y + Z.of_nat (length l).
Proof.
  revert y. induction l as [|x l IH]; intros y; simpl fold_left.
  - simpl. lia.
  - rewrite IH. simpl length. lia.
Qed.

(** The header ends one row lower for every distinct phase. *)
Lemma draw_header_nonempty height self :
  endpoints self ≠ [] →
  draw_header height self = 4 + Z.of_nat (length (status_counts self)).
Proof.
  intros Hne. unfold draw_header. destruct (endpoints self); [done|].
  rewrite fold_left_count. lia.
Qed.

Lemma draw_header_endpoints height s1 s2 :
  endpoints s1 = endpoints s2 → draw_header height s1 = draw_header height s2.
Proof. intros He. unfold draw_header, status_counts. by rewrite He. Qed.

Lemma elem_of_draw_rows (k : nat) (m table_start_y height : Z) self (r : Z) :
  r ∈ (draw_rows (seqZ m (Z.of_nat k)) table_start_y height self).*2 ↔
  scroll_offset self + m ≤ r < scroll_offset self + m + Z.of_nat k ∧
  r < len self ∧ table_start_y + (r - scroll_offset self) < height - 3.
Proof.
  revert m. induction k as [|k IH]; intros m.
  - simpl. rewrite elem_of_nil. lia.
  - rewrite seqZ_cons by lia. simpl draw_rows.
    destruct (Z.geb_spec (scroll_offset self + m) (len self)).
    { simpl. rewrite elem_of_nil. lia. }
    destruct (Z.geb_spec (table_start_y + m) (height - 3)).
    { simpl. rewrite elem_of_nil. lia. }
    rewrite fmap_cons, elem_of_cons. simpl.
    replace (Z.pred (Z.of_nat (S k))) with (Z.of_nat k) by lia.
    rewrite IH. lia.
Qed.

(** The records a frame shows: those from the offset on, as many as the
    table has room for. *)
Lemma elem_of_frame_rows height self (r : Z) :
  r ∈ (frame_rows height self).*2 ↔
  endpoints self ≠ [] ∧
  scroll_offset self ≤ r
    < scroll_offset self + table_visible_rows (draw_header height self) height ∧
  r < len self.
Proof.
  unfold frame_rows, draw_table.
  destruct (endpoints self) as [|x l] eqn:E.
  { simpl. rewrite elem_of_nil. tauto. }
  rewrite <- E. set (v := table_visible_rows (draw_header height self) height).
  destruct (Z.le_gt_cases 0 v) as [Hv|Hv].
  - rewrite <- (Z2Nat.id v) at 1 by done. rewrite elem_of_draw_rows.
    rewrite Z2Nat.id by done. unfold table_visible_rows in v.
    split; [intros (? & ? & ?)|intros (_ & ? & ?)];
      split_and!; try lia; congruence.
  - rewrite seqZ_nil by lia. simpl. rewrite elem_of_nil. lia.
Qed.

End Drawing.

Section Window.

Lemma Counter_length_same (l1 l2 : list string) :
  (∀ k, k ∈ l1 ↔ k ∈ l2) → length (Counter l1) = length (Counter l2).
Proof.
  intros Hsame.
  destruct (Counter_keys l1) as [Hnd1 Hin1], (Counter_keys l2) as [Hnd2 Hin2].
  rewrite <- (length_fmap fst (Counter l1)), <- (length_fmap fst (Counter l2)).
  apply Permutation_length, NoDup_Permutation; [done..|].
  intros k. by rewrite Hin1, Hin2.
Qed.

(** Room for the whole window: the selected row is drawn. *)
Lemma selected_row_drawn_with_room height self :
  1 ≤ height - 10 → selection_valid self →
  height - 10 ≤ table_visible_rows (draw_header height self) height →
  selected_row_drawn height (handle_scroll height self).
Proof.
  intros Hh Hv Hroom. unfold selected_row_drawn.
  destruct (handle_scroll_fields height self) as (He & Hr & Hl).
  destruct (handle_scroll_in_window height self Hh Hv) as (Hv' & Hw & _).
  apply elem_of_frame_rows.
  rewrite (draw_header_endpoints height _ self He).
  unfold selection_valid, in_window in *. rewrite He.
  split_and!; [|lia..].
  intros Hnil. unfold len in Hv. rewrite Hnil in Hv. simpl in Hv. lia.
Qed.

(** Less room than the window, and records enough to fill it: the last
    row of the window is a valid selection that is not drawn. *)
Lemma selected_row_undrawn_without_room height self :
  endpoints self ≠ [] →
  table_visible_rows (draw_header height self) height < height - 10 →
  height - 10 ≤ len self →
  ∃ row offset,
    selection_valid (set_scroll_offset offset (set_current_row row self)) ∧
    ¬ selected_row_drawn height
        (handle_scroll height (set_scroll_offset offset (set_current_row row self))).
Proof.
  intros Hne Hroom Hfill. exists (Z.max 0 (height - 11)), 0.
  assert (Hpos : 0 < len self).
  { unfold len. destruct (endpoints self); [done|]. simpl. lia. }
  split.
  { unfold selection_valid, len in *. simpl. lia. }
  unfold selected_row_drawn. rewrite elem_of_frame_rows.
  set (s := set_scroll_offset 0 (set_current_row (Z.max 0 (height - 11)) self)).
  destruct (handle_scroll_fields height s) as (He & Hr & Hl).
  rewrite (draw_header_endpoints height _ self) by (by rewrite He).
  intros (_ & Hin & _). rewrite Hr in Hin.
  assert (Hoff : 0 ≤ scroll_offset (handle_scroll height s) ∧
                 (1 ≤ height - 10 → scroll_offset (handle_scroll height s) = 0)).
  { clear Hin He Hr Hl. subst s. destruct self. scroll_solve. }
  change (current_row s) with (Z.max 0 (height - 11)) in Hin. lia.
Qed.

(** Repeating the first record lengthens the list and keeps the header. *)
Lemma draw_header_padded height self (n : nat) x l :
  endpoints self = x :: l →
  draw_header height (set_loaded (endpoints self ++ replicate n x) 0%float self)
  = draw_header height self.
Proof.
  intros He. rewrite !draw_header_nonempty.
  - f_equal. f_equal. unfold status_counts. simpl endpoints.
    apply Counter_length_same. intros k.
    rewrite fmap_app, elem_of_app, fmap_replicate, elem_of_replicate.
    split; [|tauto]. intros [?|[-> _]]; [done|].
    rewrite He, fmap_cons. apply list_elem_of_here.
  - by rewrite He.
  - simpl. rewrite He. done.
Qed.

(** Less room than the window: some list with the same header has a valid
    selection that is not drawn. *)
Lemma selected_row_not_guaranteed height self :
  endpoints self ≠ [] →
  table_visible_rows (draw_header height self) height < height - 10 →
  ∃ self',
    draw_header height self' = draw_header height self ∧
    selection_valid self' ∧
    ¬ selected_row_drawn height (handle_scroll height self').
Proof.
  intros Hne Hroom. destruct (endpoints self) as [|x l] eqn:He; [done|].
  set (n := Z.to_nat (height - 10)).
  set (s := set_loaded (endpoints self ++ replicate n x) 0%float self).
  assert (Hhead : draw_header height s = draw_header height self)
    by exact (draw_header_padded height self n x l He).
  destruct (selected_row_undrawn_without_room height s)
    as (row & offset & Hv & Hnot).
  - subst s. simpl. rewrite He. done.
  - by rewrite Hhead.
  - subst s. unfold len. simpl. rewrite length_app, length_replicate. lia.
  - exists (set_scroll_offset offset (set_current_row row s)).
    split_and!; [|done..]. by rewrite <- Hhead.
Qed.

End Window.

(** C9: [handle_scroll] takes its window to be [height - 10] rows whatever
    the records hold, while the header ends one row lower for every distinct
    phase, so the table has room for [height - 9 - d] rows when there are
    [d] distinct phases.  When the table has room for at least [height - 10]
    rows (and the window has a row), the selected row is among the rows
    drawn after [handle_scroll].  When it has room for fewer, that is not
    guaranteed: some list with the same header has a valid selection that is
    left undrawn, and so has every list that fills the window. *)
Theorem scroll_window_ignores_header height self :
  (∀ l, length l = length (endpoints self) →
        scroll_offset (handle_scroll height (set_loaded l 0%float self))
        = scroll_offset (handle_scroll height self)) ∧
  (endpoints self ≠ [] →
   NoDup (status_counts self).*1 ∧
   (∀ p, p ∈ (status_counts self).*1 ↔
         p ∈ (λ ep, dict_get ep "phase" "UNKNOWN") <$> endpoints self) ∧
   table_visible_rows (draw_header height self) height
   = height - 9 - Z.of_nat (length (status_counts self))) ∧
  (1 ≤ height - 10 → selection_valid self →
   height - 10 ≤ table_visible_rows (draw_header height self) height →
   selected_row_drawn height (handle_scroll height self)) ∧
  (endpoints self ≠ [] →
   table_visible_rows (draw_header height self) height < height - 10 →
   (∃ self',
      draw_header height self' = draw_header height self ∧
      selection_valid self' ∧
      ¬ selected_row_drawn height (handle_scroll height self')) ∧
   (height - 10 ≤ len self →
    ∃ row offset,
      selection_valid (set_scroll_offset offset (set_current_row row self)) ∧
      ¬ selected_row_drawn height
          (handle_scroll height (set_scroll_offset offset (set_current_row row self))))).
Proof.
  split_and!.
  - intros l Hl. unfold handle_scroll, len. simpl. rewrite Hl. by zcases.
  - intros Hne. destruct (Counter_keys ((λ ep, dict_get ep "phase" "UNKNOWN")
                             <$> endpoints self)) as [Hnd Hin].
    split_and!; [done..|].
    rewrite (draw_header_nonempty _ _ Hne). unfold table_visible_rows. lia.
  - apply selected_row_drawn_with_room.
  - intros Hne Hroom. split.
    + by apply selected_row_not_guaranteed.
    + by apply selected_row_undrawn_without_room.
Qed.

Lemma scroll_window_ignores_header_witness :
  selected_row_drawn 20
    (handle_scroll 20 (showing (replicate 25 (named "ep-1")) 24 0)) ∧
  ∃ self',
    draw_header 12 self'
    = draw_header 12
        (showing [ {[ "name" := "ep-1"; "phase" := "READY" ]};
                   {[ "name" := "ep-2"; "phase" := "FAILED" ]} ] 0 0) ∧
    selection_valid self' ∧
    ¬ selected_row_drawn 12 (handle_scroll 12 self').
Proof.
  split.
  - apply (scroll_window_ignores_header 20
             (showing (replicate 25 (named "ep-1")) 24 0)).
    + lia.
    + vm_compute. split; [discriminate|reflexivity].
    + vm_compute. discriminate.
  - apply (scroll_window_ignores_header 12
             (showing [ {[ "name" := "ep-1"; "phase" := "READY" ]};
                        {[ "name" := "ep-2"; "phase" := "FAILED" ]} ] 0 0)).
    + discriminate.
    + vm_compute. reflexivity.
Defined.

(** ** Failures of the record source *)

(** C10: [get_endpoints] returns for every outcome of the tool, and every
    exception raised in its [try], [KeyboardInterrupt] included, becomes the
    empty list.  So an interrupt during the fetch of a refresh does not end
    the loop: the iteration goes on with no records, and the next frame draws
    no table row.  An interrupt during [getch] does reach [main], which ends
    the program. *)
Theorem get_endpoints_swallows_every_exception :
  (∀ tool, is_ok (get_endpoints tool)) ∧
  (∀ e, get_endpoints (Raise e) = Ok []) ∧
  (∀ e now self, load_data (Raise e) now self = Ok (set_loaded [] now self)) ∧
  (∀ height t self,
     ∃ self',
       run_iteration (key_frame height t (Raise KeyboardInterrupt) (Ok ord_r)) self
       = Ok (Continue self') ∧
       run [key_frame height t (Raise KeyboardInterrupt) (Ok ord_r)] self
       = Ok (Running self') ∧
       endpoints self' = [] ∧
       ∀ height', frame_rows height' self' = []) ∧
  (∀ t0 t1 now height t,
     run_iteration (key_frame height t (Ok []) (Raise KeyboardInterrupt)) fresh
     = Raise KeyboardInterrupt ∧
     main t0 t1 (Ok []) now [key_frame height t (Ok []) (Raise KeyboardInterrupt)]
     = Ok Exited).
Proof.
  split_and!.
  - by intros [l|e].
  - done.
  - done.
  - intros height t self. unfold run, run_iteration. simpl.
    destruct (auto_refresh_due t self); simpl; unfold dispatch; simpl;
      eexists; split_and!; done.
  - intros t0 t1 now height t. split; [done|].
    unfold main, init, run, run_iteration. simpl.
    unfold auto_refresh_due. simpl. done.
Qed.

(** ** More about the sort *)

Section SortMore.

(** The sort is stable: the records of one key keep the order in which the
    tool listed them. *)
Lemma list_sort_stable (l : list endpoint) :
  Forall (λ x, is_ok (sort_key x)) l →
  ∃ l', list_sort l = Ok l' ∧
        ∀ k, filter (λ x, sort_key x = Ok k) l' = filter (λ x, sort_key x = Ok k) l.
Proof.
  intros Hok. destruct (decorate_ok l Hok) as (d & Hd & Hl & Hk).
  exists ((sort_decorated d).*2). unfold list_sort. rewrite Hd. split; [done|].
  intros k. rewrite filter_decorated by by rewrite sort_decorated_perm.
  rewrite sort_decorated_stable, <- filter_decorated by done. by rewrite Hl.
Qed.

Lemma list_sort_stable_witness :
  ∃ l', list_sort [named "b-2"; named "c-1"; named "a-2"] = Ok l' ∧
        filter (λ x, sort_key x = Ok 2) l' = [named "b-2"; named "a-2"].
Proof.
  destruct (list_sort_stable [named "b-2"; named "c-1"; named "a-2"])
    as (l' & Hl' & Hst).
  - repeat constructor.
  - exists l'. split; [done|]. rewrite Hst. reflexivity.
Defined.

(** The sort raises exactly when some key does. *)
Lemma list_sort_ok_iff (l : list endpoint) :
  is_ok (list_sort l) ↔ Forall (λ x, is_ok (sort_key x)) l.
Proof.
  split.
  - unfold list_sort. destruct (decorate l) as [d|e] eqn:Ed; simpl; [|done].
    intros _. by destruct (decorate_inv l d Ed) as (_ & _ & ?).
  - intros Hok. by destruct (list_sort_ok l Hok) as (l' & -> & _).
Qed.

End SortMore.

Section KeyRange.

Lemma str_split_fields (c : ascii) (s f : string) :
  f ∈ str_split c s → str_contains c f = false.
Proof.
  revert f. induction s as [|d s IH]; intros f; simpl.
  - by intros ->%list_elem_of_singleton.
  - destruct (Ascii.eqb d c) eqn:Ed.
    + intros [->|Hin]%elem_of_cons; [done|by apply IH].
    + destruct (str_split c s) as [|g gs].
      * intros ->%list_elem_of_singleton. simpl. by rewrite Ed.
      * intros [->|Hin]%elem_of_cons.
        -- simpl. rewrite Ed. apply IH, list_elem_of_here.
        -- by apply IH, list_elem_of_further.
Qed.

Lemma digit_of_range (c : ascii) (d : Z) : digit_of c = Some d → 0 ≤ d ≤ 9.
Proof.
  unfold digit_of. destruct (_ && _) eqn:E; [|done].
  apply andb_prop in E as [?%Z.leb_le ?%Z.leb_le]. intros [= <-]. lia.
Qed.

Lemma int_digits_nonneg_bounded (m : nat) (s : string) (acc n : Z) :
  (String.length s ≤ m)%nat → 0 ≤ acc → int_digits acc s = Some n → 0 ≤ n.
Proof.
  revert s acc. induction m as [|m IH]; intros s acc Hm Hacc.
  - destruct s; simpl in *; [|lia]. by intros [= <-].
  - destruct s as [|c s]; simpl in *; [by intros [= <-]|].
    destruct (digit_of c) as [d|] eqn:Ed.
    + apply digit_of_range in Ed. apply IH; lia.
    + destruct (Ascii.eqb c "_").
      * destruct s as [|c' s']; [done|].
        destruct (digit_of c') as [d|] eqn:Ed'; [|done].
        apply digit_of_range in Ed'. simpl in Hm. apply IH; lia.
      * destruct (is_space c); [|done].
        destruct (all_space s); [|done]. by intros [= <-].
Qed.

Lemma int_digits_nonneg (s : string) (acc n : Z) :
  0 ≤ acc → int_digits acc s = Some n → 0 ≤ n.
Proof. by apply (int_digits_nonneg_bounded (String.length s)). Qed.

Lemma int_unsigned_nonneg (s : string) (n : Z) : int_unsigned s = Some n → 0 ≤ n.
Proof.
  destruct s as [|c s]; simpl; [done|].
  destruct (digit_of c) as [d|] eqn:Ed; [|done].
  apply digit_of_range in Ed. apply int_digits_nonneg. lia.
Qed.

Lemma lstrip_no_dash (s : string) :
  str_contains "-" s = false → str_contains "-" (lstrip s) = false.
Proof.
  induction s as [|c s IH]; simpl; [done|].
  destruct (Ascii.eqb c "-") eqn:Ec; [done|]. intros Hs.
  destruct (is_space c); [by apply IH|]. simpl. by rewrite Ec.
Qed.

(** A string without ['-'] is never read as a negative number. *)
Lemma int_nonneg (s : string) (n : Z) :
  str_contains "-" s = false → int s = Ok n → 0 ≤ n.
Proof.
  intros Hs%lstrip_no_dash. unfold int.
  destruct (lstrip s) as [|c r] eqn:El.
  - simpl. done.
  - simpl in Hs. destruct (Ascii.eqb_spec c "-") as [->|Hc]; [done|].
    assert (Hn : ∀ p, match p with Some n0 => Ok n0 | None => Raise ValueError end = Ok n →
                      p = int_unsigned r ∨ p = int_unsigned (String c r) → 0 ≤ n).
    { intros [m|] [= <-] [Hp|Hp]; symmetry in Hp; by apply int_unsigned_nonneg in Hp. }
    destruct c as [[] [] [] [] [] [] [] []]; try (intros H; apply (Hn _ H); auto);
      try done.
Qed.

End KeyRange.

Lemma sort_key_cases (x : endpoint) :
  (sort_key x = Raise KeyError ↔ x !! "name" = None) ∧
  (∀ e, sort_key x = Raise e → e = KeyError ∨ e = ValueError) ∧
  (∀ k, sort_key x = Ok k → 0 ≤ k).
Proof.
  unfold sort_key, dict_index. destruct (x !! "name") as [n|] eqn:En; simpl.
  2: { split_and!; [done|intros e [= <-]; by left|done]. }
  destruct (str_contains "-" n) eqn:Hn.
  2: { split_and!; [done|done|intros k [= <-]; lia]. }
  pose proof (str_split_second n Hn) as Hidx. unfold list_index in *.
  destruct (str_split "-" n !! 1%nat) as [f|] eqn:Ef; [|done]. simpl.
  assert (Hf : str_contains "-" f = false).
  { apply (str_split_fields _ n). by apply list_elem_of_lookup_2 in Ef. }
  assert (Hint : ∀ e, int f = Raise e → e = ValueError).
  { intros e. unfold int. by destruct (match lstrip f with
      | EmptyString => _ | String _ _ => _ end); intros [= <-]. }
  split_and!.
  - split; [|done]. by intros ?%Hint.
  - intros e ?%Hint. by right.
  - intros k Hk. by apply (int_nonneg f).
Qed.

(** On a record whose values are strings, the key function raises
    [KeyError] exactly when there is no name,
    otherwise only [ValueError] (the subscript [[1]] is guarded by the test
    for ['-']), and the keys it returns are never negative, the field read
    holding no ['-']. *)
Theorem sort_key_outcomes (x : endpoint) :
  (sort_key x = Raise KeyError ↔ x !! "name" = None) ∧
  (∀ e, sort_key x = Raise e → e = KeyError ∨ e = ValueError) ∧
  (∀ k, sort_key x = Ok k → 0 ≤ k).
Proof.
  destruct (sort_key_cases x) as (Hkey & Hraise & Hpos).
  split_and!; [exact Hkey|exact Hraise|exact Hpos].
Qed.

Lemma sort_key_outcomes_witness :
  sort_key ∅ = Raise KeyError ∧
  (sort_key (named "ep-") = Raise KeyError ∨ sort_key (named "ep-") = Raise ValueError) ∧
  0 ≤ 7.
Proof.
  destruct (sort_key_outcomes ∅) as (Hkey & _ & _).
  destruct (sort_key_outcomes (named "ep-")) as (_ & Hexc & _).
  destruct (sort_key_outcomes (named "ep-7")) as (_ & _ & Hpos).
  split_and!.
  - apply Hkey. reflexivity.
  - destruct (Hexc ValueError); [reflexivity|discriminate|by right].
  - apply Hpos. reflexivity.
Defined.

(** ** More about scrolling *)

(** Whatever the state and the height of the terminal, [handle_scroll]
    changes nothing but the offset and leaves it between 0 and the last
    index (0 for an empty list). *)
Theorem handle_scroll_offset_range height self :
  0 ≤ scroll_offset (handle_scroll height self) ≤ Z.max 0 (len self - 1) ∧
  handle_scroll height self
  = set_scroll_offset (scroll_offset (handle_scroll height self)) self.
Proof. destruct self. scroll_solve. Qed.

Lemma navigate_effect height key self :
  navigate height key self
  = set_scroll_offset (scroll_offset (navigate height key self))
      (set_current_row (current_row (navigate height key self)) self) ∧
  (selection_valid self → selection_valid (navigate height key self)) ∧
  (0 ≤ scroll_offset self → 0 ≤ scroll_offset (navigate height key self)) ∧
  (-1 ≤ current_row self → -1 ≤ current_row (navigate height key self)).
Proof.
  unfold navigate.
  destruct ((key =? KEY_UP) && (current_row self >? 0)) eqn:Eup.
  { apply andb_prop in Eup as [_ Hpos%Z.gtb_gt]. destruct self. scroll_solve. }
  destruct ((key =? KEY_DOWN) && (current_row self <? len self - 1)) eqn:Edown.
  { apply andb_prop in Edown as [_ Hlt%Z.ltb_lt]. destruct self. scroll_solve. }
  destruct (key =? KEY_PPAGE); [destruct self; scroll_solve|].
  destruct (key =? KEY_NPAGE); [destruct self; scroll_solve|].
  destruct (key =? KEY_HOME); [destruct self; scroll_solve|].
  destruct (key =? KEY_END); destruct self; scroll_solve.
Qed.

(** At any height, keys handled by the navigation branches change nothing
    but the selected row and the offset, keep a valid selection valid and a
    non-negative offset non-negative, and never select a row below -1. *)
Theorem press_keeps_selection_valid height keys self :
  press height keys self
  = set_scroll_offset (scroll_offset (press height keys self))
      (set_current_row (current_row (press height keys self)) self) ∧
  (selection_valid self → selection_valid (press height keys self)) ∧
  (0 ≤ scroll_offset self → 0 ≤ scroll_offset (press height keys self)) ∧
  (-1 ≤ current_row self → -1 ≤ current_row (press height keys self)).
Proof.
  revert self. induction keys as [|key keys IH]; intros self.
  - unfold press. simpl. split_and!; [by destruct self|done..].
  - change (press height (key :: keys) self)
      with (press height keys (navigate height key self)).
    destruct (navigate_effect height key self) as (Hn & Hv & Ho & Hr).
    destruct (IH (navigate height key self)) as (Hp & Hv' & Ho' & Hr').
    split_and!; [|by auto..].
    rewrite Hp at 1. rewrite Hn. by destruct self.
Qed.

Lemma press_keeps_selection_valid_witness :
  selection_valid
    (press 5 [KEY_NPAGE; KEY_UP; KEY_END] (showing (replicate 4 (named "ep-1")) 2 1)).
Proof.
  apply (press_keeps_selection_valid 5 [KEY_NPAGE; KEY_UP; KEY_END]
           (showing (replicate 4 (named "ep-1")) 2 1)).
  vm_compute. split; [discriminate|reflexivity].
Defined.

Section Moves.

Lemma navigate_len height key self :
  len (navigate height key self) = len self.
Proof. unfold len. by rewrite navigate_endpoints. Qed.

Lemma navigate_down_row height self :
  current_row (navigate height KEY_DOWN self)
  = if current_row self <? len self - 1 then current_row self + 1 else current_row self.
Proof. unfold navigate. simpl. destruct self. scroll_solve. Qed.

Lemma navigate_up_row height self :
  current_row (navigate height KEY_UP self)
  = if current_row self >? 0 then current_row self - 1 else current_row self.
Proof. unfold navigate. simpl. destruct self. scroll_solve. Qed.

Lemma navigate_npage_row height self :
  current_row (navigate height KEY_NPAGE self)
  = Z.min (len self - 1) (current_row self + 10).
Proof. unfold navigate. simpl. destruct self. scroll_solve. Qed.

Lemma navigate_ppage_row height self :
  current_row (navigate height KEY_PPAGE self) = Z.max 0 (current_row self - 10).
Proof. unfold navigate. simpl. destruct self. scroll_solve. Qed.

End Moves.

(** A move that stays inside the list is undone by the opposite key, at
    any height of the terminal: Down then Up and Page Down then Page Up come
    back to the selected row, and so do Up then Down and Page Up then Page
    Down. *)
Theorem opposite_keys_restore_row height self :
  (0 ≤ current_row self < len self - 1 →
   current_row (press height [KEY_DOWN; KEY_UP] self) = current_row self) ∧
  (0 < current_row self ≤ len self - 1 →
   current_row (press height [KEY_UP; KEY_DOWN] self) = current_row self) ∧
  (0 ≤ current_row self ≤ len self - 1 - 10 →
   current_row (press height [KEY_NPAGE; KEY_PPAGE] self) = current_row self) ∧
  (10 ≤ current_row self ≤ len self - 1 →
   current_row (press height [KEY_PPAGE; KEY_NPAGE] self) = current_row self).
Proof.
  unfold press. cbn [foldl]. split_and!; intros Hr.
  - rewrite navigate_up_row, navigate_down_row.
    destruct (Z.ltb_spec (current_row self) (len self - 1)); [|lia].
    destruct (Z.gtb_spec (current_row self + 1) 0); lia.
  - rewrite navigate_down_row, navigate_len, navigate_up_row.
    destruct (Z.gtb_spec (current_row self) 0); [|lia].
    destruct (Z.ltb_spec (current_row self - 1) (len self - 1)); lia.
  - rewrite navigate_ppage_row, navigate_npage_row. lia.
  - rewrite navigate_npage_row, navigate_len, navigate_ppage_row. lia.
Qed.

Lemma opposite_keys_restore_row_witness :
  current_row (press 20 [KEY_DOWN; KEY_UP] (showing (replicate 30 (named "ep-1")) 12 5)) = 12 ∧
  current_row (press 20 [KEY_UP; KEY_DOWN] (showing (replicate 30 (named "ep-1")) 12 5)) = 12 ∧
  current_row (press 20 [KEY_NPAGE; KEY_PPAGE] (showing (replicate 30 (named "ep-1")) 12 5)) = 12 ∧
  current_row (press 20 [KEY_PPAGE; KEY_NPAGE] (showing (replicate 30 (named "ep-1")) 12 5)) = 12.
Proof.
  destruct (opposite_keys_restore_row 20 (showing (replicate 30 (named "ep-1")) 12 5))
    as (H1 & H2 & H3 & H4).
  split_and!; [apply H1|apply H2|apply H3|apply H4];
    vm_compute; split; first [reflexivity|discriminate].
Defined.

(** Home then End shows the last page: on a terminal with a window of at
    least one row and a list that is not empty, the last record is selected
    and the offset puts it on the last row of the window (offset 0 when the
    whole list fits). *)
Theorem home_then_end_shows_last_page height self :
  1 ≤ height - 10 → 0 < len self →
  current_row (press height [KEY_HOME; KEY_END] self) = len self - 1 ∧
  scroll_offset (press height [KEY_HOME; KEY_END] self)
  = Z.max 0 (len self - (height - 10)).
Proof.
  intros Hh Hl. unfold press, navigate. simpl. destruct self.
  unfold handle_scroll, set_scroll_offset, set_current_row, len in *.
  simpl in *. repeat (zcases; simpl in *); split; lia.
Qed.

Lemma home_then_end_shows_last_page_witness :
  current_row (press 20 [KEY_HOME; KEY_END]
                 (showing (replicate 25 (named "ep-1")) 7 3)) = 24 ∧
  scroll_offset (press 20 [KEY_HOME; KEY_END]
                   (showing (replicate 25 (named "ep-1")) 7 3)) = 15.
Proof.
  apply (home_then_end_shows_last_page 20 (showing (replicate 25 (named "ep-1")) 7 3)).
  - lia.
  - reflexivity.
Defined.

(** ** States the loop can reach *)

Section Reach.

Lemma list_sort_ascending l l' :
  list_sort l = Ok l' → l' ≡ₚ l ∧ ascending_by sort_key l'.
Proof.
  intros Hl. assert (Hok : is_ok (list_sort l)) by by rewrite Hl.
  apply list_sort_ok_iff in Hok.
  destruct (list_sort_ok l Hok) as (l'' & Hl'' & Hp & Hs).
  rewrite Hl in Hl''. injection Hl'' as <-. by split.
Qed.

(** What a load that returns has done. *)
Lemma load_data_inv tool now self self' :
  load_data tool now self = Ok self' →
  ∃ l, self' = set_loaded l now self ∧ l ≡ₚ fetched tool ∧ ascending_by sort_key l.
Proof.
  unfold load_data, get_endpoints. destruct tool as [[|x l]|e]; simpl.
  - intros [= <-]. exists []. split_and!; [done..|constructor].
  - destruct (list_sort (x :: l)) as [l'|e] eqn:El; simpl; [|done].
    intros [= <-]. apply list_sort_ascending in El as [Hp Hs].
    exists l'. split_and!; done.
  - intros [= <-]. exists []. split_and!; [done..|constructor].
Qed.

(** The invariant of the loop. *)
Lemma dispatch_invariant f key self self' :
  dispatch f key self = Ok (Continue self') →
  0 ≤ scroll_offset self → -1 ≤ current_row self →
  refresh_interval self = 15 → ascending_by sort_key (endpoints self) →
  0 ≤ scroll_offset self' ∧ -1 ≤ current_row self' ∧
  refresh_interval self' = 15 ∧ ascending_by sort_key (endpoints self').
Proof.
  unfold dispatch. intros Hd Ho Hr Hi Hs.
  destruct (key =? ord_q); [done|].
  destruct (key =? ord_r).
  { destruct (load_data _ _ self) as [s|e] eqn:El; simpl in Hd; [|done].
    apply load_data_inv in El as (l & -> & _ & Hl). by simplify_eq. }
  destruct (key =? ord_t).
  { destruct (auto_refresh (set_auto_refresh _ self)); by simplify_eq. }
  simplify_eq.
  destruct (navigate_effect (f_scroll_height f) key self)
    as (_ & _ & Ho' & Hr').
  rewrite navigate_refresh_interval, navigate_endpoints. auto.
Qed.

Lemma run_iteration_invariant f self self' :
  run_iteration f self = Ok (Continue self') →
  0 ≤ scroll_offset self → -1 ≤ current_row self →
  refresh_interval self = 15 → ascending_by sort_key (endpoints self) →
  0 ≤ scroll_offset self' ∧ -1 ≤ current_row self' ∧
  refresh_interval self' = 15 ∧ ascending_by sort_key (endpoints self').
Proof.
  unfold run_iteration. intros Hrun Ho Hr Hi Hs.
  destruct (auto_refresh_due (f_clock f) self).
  - destruct (load_data _ _ self) as [s|e] eqn:El; simpl in Hrun; [|done].
    apply load_data_inv in El as (l & -> & _ & Hl).
    destruct (f_key f) as [key|e]; simpl in Hrun; [|done].
    by apply (dispatch_invariant _ _ _ _ Hrun).
  - simpl in Hrun. destruct (f_key f) as [key|e]; simpl in Hrun; [|done].
    by apply (dispatch_invariant _ _ _ _ Hrun).
Qed.

(** The loop goes from reachable states to reachable states. *)
Lemma run_reachable frames self self' :
  reachable self → run frames self = Ok (Running self') → reachable self'.
Proof.
  revert self. induction frames as [|f frames IH]; intros self Hreach; simpl.
  - by intros [= <-].
  - destruct (run_iteration f self) as [[s|]|e] eqn:Ef; simpl; [|done..].
    apply IH. by eapply reachable_step.
Qed.

Lemma draw_row_cells_ok width self (rows : list (Z * Z)) :
  Forall (λ r, 0 ≤ r.2 < len self) rows →
  ∃ cells, draw_row_cells width self rows = Ok cells ∧
           tr_index <$> cells = rows.*2 ∧ tr_y <$> cells = rows.*1 ∧
           Forall (λ c, tr_reverse c = true ↔ tr_index c = current_row self) cells.
Proof.
  induction 1 as [|[y i] rows Hi _ (cells & Hc & Hidx & Hy & Hrev)]; simpl.
  - by exists [].
  - unfold draw_row, list_index_Z, list_index. simpl in *.
    assert (Hlt : (i <? 0) = false) by (apply Z.ltb_ge; lia).
    rewrite Hlt. simpl. rewrite Hlt.
    destruct (endpoints self !! Z.to_nat i) as [ep|] eqn:Eep.
    2: { apply lookup_ge_None in Eep. unfold len in Hi. lia. }
    simpl. rewrite Hc. simpl. eexists. split; [done|]. simpl.
    split_and!; [by f_equal..|].
    constructor; [simpl; apply Z.eqb_eq|done].
Qed.

End Reach.

(** In every state the loop can reach, the offset is not negative, the
    selected row is at least -1, the refresh interval is 15 and the records
    are in ascending order of their sort key.  So a frame drawn in such a
    state reads only records of the list, front to back: building its rows
    raises no [IndexError], and a row is in reverse video exactly when it is
    the selected one. *)
Theorem reachable_invariant self :
  reachable self →
  0 ≤ scroll_offset self ∧ -1 ≤ current_row self ∧
  refresh_interval self = 15 ∧ ascending_by sort_key (endpoints self) ∧
  ∀ width height,
    ∃ cells, frame_table width height self = Ok cells ∧
             tr_index <$> cells = (frame_rows height self).*2 ∧
             Forall (λ c, 0 ≤ tr_index c < len self) cells ∧
             Forall (λ c, tr_reverse c = true ↔ tr_index c = current_row self) cells.
Proof.
  intros Hreach.
  assert (Hinv : 0 ≤ scroll_offset self ∧ -1 ≤ current_row self ∧
                 refresh_interval self = 15 ∧ ascending_by sort_key (endpoints self)).
  { induction Hreach as [t0 t1 tool now self Hinit|f self self' _ IH Hstep].
    - unfold init in Hinit. apply load_data_inv in Hinit as (l & -> & _ & Hs).
      simpl. split_and!; [lia..|done|done].
    - destruct IH as (? & ? & ? & ?). by apply (run_iteration_invariant f self). }
  destruct Hinv as (Ho & Hr & Hi & Hs). split_and!; [done..|].
  intros width height.
  assert (Hrange : Forall (λ r, 0 ≤ r.2 < len self) (frame_rows height self)).
  { eapply Forall_impl; [apply frame_rows_in_range|]. simpl. lia. }
  destruct (draw_row_cells_ok width self _ Hrange) as (cells & Hc & Hidx & _ & Hrev).
  exists cells. split_and!; [done..| |done].
  assert (Hsnd : Forall (λ i, 0 ≤ i < len self) ((frame_rows height self).*2))
    by (apply Forall_fmap; exact Hrange).
  rewrite <- Hidx in Hsnd. apply Forall_fmap in Hsnd. exact Hsnd.
Qed.

Lemma reachable_invariant_witness :
  ∃ self,
    run [key_frame 20 1%float (Ok [named "ep-2"; named "ep-1"]) (Ok KEY_END)]
      (set_loaded [] 0%float fresh) = Ok (Running self) ∧
    0 ≤ scroll_offset self ∧ -1 ≤ current_row self.
Proof.
  eexists. split; [vm_compute; reflexivity|].
  refine (let H := reachable_invariant _ _ in conj (proj1 H) (proj1 (proj2 H))).
  apply (run_reachable [key_frame 20 1%float (Ok [named "ep-2"; named "ep-1"]) (Ok KEY_END)]
           (set_loaded [] 0%float fresh)).
  - apply (reachable_init 0%float 0%float (Ok []) 0%float). reflexivity.
  - vm_compute. reflexivity.
Defined.

(** ** More about what is drawn *)

Section Slice.

Lemma draw_rows_seqZ (k : nat) (m table_start_y height : Z) self :
  draw_rows (seqZ m (Z.of_nat k)) table_start_y height self
  = (λ i, (table_start_y + i, scroll_offset self + i))
      <$> seqZ m (Z.min (Z.of_nat k)
                    (Z.min (len self - scroll_offset self - m)
                           (height - 3 - table_start_y - m))).
Proof.
  revert m. induction k as [|k IH]; intros m.
  - rewrite (seqZ_nil m (Z.of_nat 0)) by (simpl; lia).
    rewrite seqZ_nil by (simpl; lia). done.
  - rewrite (seqZ_cons m (Z.of_nat (S k))) by lia. simpl draw_rows.
    destruct (Z.geb_spec (scroll_offset self + m) (len self)).
    { rewrite seqZ_nil by lia. done. }
    destruct (Z.geb_spec (table_start_y + m) (height - 3)).
    { rewrite seqZ_nil by lia. done. }
    rewrite (seqZ_cons m (Z.min _ _)) by lia. rewrite fmap_cons. f_equal.
    replace (Z.pred (Z.of_nat (S k))) with (Z.of_nat k) by lia.
    rewrite IH. do 2 f_equal. lia.
Qed.

End Slice.

Lemma frame_rows_cases height self :
  (endpoints self = [] → frame_rows height self = []) ∧
  (endpoints self ≠ [] →
   frame_rows height self
   = (λ i, (draw_header height self + 2 + i, scroll_offset self + i))
       <$> seqZ 0 (Z.min (table_visible_rows (draw_header height self) height)
                         (len self - scroll_offset self))).
Proof.
  unfold frame_rows, draw_table. split; [by intros ->|]. intros Hne.
  destruct (endpoints self) as [|x l] eqn:E; [done|]. clear Hne E.
  set (v := table_visible_rows (draw_header height self) height).
  destruct (Z.le_gt_cases 0 v) as [Hv|Hv].
  - rewrite <- (Z2Nat.id v) at 1 by done. rewrite draw_rows_seqZ.
    rewrite Z2Nat.id by done. do 2 f_equal.
    unfold table_visible_rows in v. lia.
  - rewrite (seqZ_nil 0 v) by lia. rewrite seqZ_nil by lia. done.
Qed.

(** The rows of the table are the records from the offset on, one per
    screen line from two lines below the header's end, as many as the table
    has room for and the list still holds; nothing when the list is empty. *)
Theorem frame_rows_slice height self :
  (endpoints self = [] → frame_rows height self = []) ∧
  (endpoints self ≠ [] →
   frame_rows height self
   = (λ i, (draw_header height self + 2 + i, scroll_offset self + i))
       <$> seqZ 0 (Z.min (table_visible_rows (draw_header height self) height)
                         (len self - scroll_offset self))).
Proof.
  destruct (frame_rows_cases height self) as [Hempty Hslice].
  split; [exact Hempty|exact Hslice].
Qed.

Lemma frame_rows_slice_witness :
  frame_rows 20 (showing (replicate 25 (named "ep-1")) 24 20)
  = (λ i, (7 + i, 20 + i)) <$> seqZ 0 5.
Proof.
  destruct (frame_rows_slice 20 (showing (replicate 25 (named "ep-1")) 24 20))
    as [_ H].
  rewrite H; [reflexivity|discriminate].
Defined.

Section Bands.

Lemma draw_status_lines_rows (y height : Z) counts (line : status_line) :
  line ∈ draw_status_lines y height counts →
  y ≤ sl_y line < y + Z.of_nat (length counts) ∧ sl_y line < height - 1.
Proof.
  revert y. induction counts as [|[status count] counts IH]; intros y; simpl.
  - by intros ?%elem_of_nil.
  - rewrite elem_of_app. intros [Hin|Hin].
    + destruct (Z.ltb_spec y (height - 1)); [|by apply elem_of_nil in Hin].
      apply list_elem_of_singleton in Hin as ->. simpl. lia.
    + apply IH in Hin. lia.
Qed.

End Bands.

(** The table keeps clear of the header and of the footer: every table row
    is on a screen line at least four below every status line, and above the
    three lines of the footer. *)
Theorem table_rows_between_header_and_footer height now self (row : Z * Z) :
  row ∈ frame_rows height self →
  (∀ line, line ∈ draw_header_lines height self → sl_y line + 4 ≤ row.1) ∧
  (∀ footer_y text color,
     draw_footer height now self = Ok (Some (footer_y, text, color)) →
     row.1 < footer_y - 1).
Proof.
  intros Hrow.
  assert (Hne : endpoints self ≠ []).
  { intros He. destruct (frame_rows_cases height self) as [H _].
    rewrite (H He) in Hrow. by apply elem_of_nil in Hrow. }
  destruct (frame_rows_cases height self) as [_ H]. rewrite (H Hne) in Hrow.
  apply list_elem_of_fmap in Hrow as (i & -> & Hi%elem_of_seqZ). simpl.
  split.
  - intros line Hline. unfold draw_header_lines in Hline.
    rewrite (draw_header_nonempty _ _ Hne).
    destruct (endpoints self); [done|].
    apply draw_status_lines_rows in Hline. lia.
  - intros footer_y text color. unfold draw_footer.
    unfold table_visible_rows in Hi.
    destruct (Z.ltb_spec height 3); [done|].
    destruct (auto_refresh self);
      [destruct (PrimFloat.ltb _ _); [destruct (int_of_float _); simpl|]|];
      intros [= <- _ _] || done; lia.
Qed.

Lemma table_rows_between_header_and_footer_witness :
  (7, 20) ∈ frame_rows 20 (showing (replicate 25 (named "ep-1")) 24 20) ∧
  7 < 18 - 1.
Proof.
  assert (Hrow : (7, 20) ∈ frame_rows 20 (showing (replicate 25 (named "ep-1")) 24 20)).
  { vm_compute. apply list_elem_of_here. }
  split; [exact Hrow|].
  apply (proj2 (table_rows_between_header_and_footer 20 0%float
                  (showing (replicate 25 (named "ep-1")) 24 20) (7, 20) Hrow)
           18 AutoRefreshOff RED).
  reflexivity.
Defined.

(** The two status tables have the same keys: a status gets the question
    mark exactly when it gets the default colour, and that is exactly when
    it is none of the four known phases. *)
Theorem unknown_status_icon_and_color status :
  (status_icon status = QUESTION_MARK ↔ get_status_color status = WHITE) ∧
  (get_status_color status = WHITE ↔
   status ≠ "PENDING_ACCEPT" ∧ status ≠ "READY" ∧
   status ≠ "FAILED" ∧ status ≠ "PROVISIONING").
Proof.
  unfold status_icon, get_status_color, status_icons, colors.
  destruct (decide (status = "PENDING_ACCEPT")) as [->|H1].
  { vm_compute. split; split; try done. by intros []. }
  destruct (decide (status = "READY")) as [->|H2].
  { vm_compute. split; split; try done. by intros (? & ? & ?). }
  destruct (decide (status = "FAILED")) as [->|H3].
  { vm_compute. split; split; try done. by intros (? & ? & ? & ?). }
  destruct (decide (status = "PROVISIONING")) as [->|H4].
  { vm_compute. split; split; try done. by intros (? & ? & ? & ?). }
  rewrite !lookup_insert_ne, !lookup_singleton_ne by done. done.
Qed.

Section Counts.

Lemma counter_add_counts k (c : list (string * Z)) :
  Forall (λ kc, 1 ≤ kc.2) c →
  Forall (λ kc, 1 ≤ kc.2) (counter_add k c) ∧
  foldr Z.add 0 (counter_add k c).*2 = foldr Z.add 0 c.*2 + 1.
Proof.
  induction 1 as [|[k' n] c Hn Hc IH]; simpl counter_add.
  - split; [by repeat constructor|done].
  - destruct IH as [IH1 IH2]. destruct (String.eqb k' k).
    + split; [constructor; [simpl in *; lia|done]|].
      rewrite !fmap_cons. cbn [foldr snd]. lia.
    + split; [by constructor|].
      rewrite !fmap_cons. cbn [foldr snd]. lia.
Qed.

Lemma fold_counter_add_counts (l : list string) (c : list (string * Z)) :
  Forall (λ kc, 1 ≤ kc.2) c →
  Forall (λ kc, 1 ≤ kc.2) (fold_left (λ c k, counter_add k c) l c) ∧
  foldr Z.add 0 (fold_left (λ c k, counter_add k c) l c).*2
  = foldr Z.add 0 c.*2 + Z.of_nat (length l).
Proof.
  revert c. induction l as [|x l IH]; intros c Hc; simpl fold_left.
  - split; [done|simpl; lia].
  - destruct (counter_add_counts x c Hc) as [H1 H2].
    destruct (IH _ H1) as [H3 H4]. split; [done|].
    rewrite H4, H2. simpl length. lia.
Qed.

Lemma draw_status_lines_content (y height : Z) counts (line : status_line) :
  line ∈ draw_status_lines y height counts →
  (sl_status line, sl_count line) ∈ counts ∧
  sl_bar_length line = Z.min 20 (sl_count line / 3) ∧
  sl_icon line = status_icon (sl_status line) ∧
  sl_color line = get_status_color (sl_status line).
Proof.
  revert y. induction counts as [|[status count] counts IH]; intros y; simpl.
  - by intros ?%elem_of_nil.
  - rewrite elem_of_app. intros [Hin|Hin].
    + destruct (y <? height - 1); [|by apply elem_of_nil in Hin].
      apply list_elem_of_singleton in Hin as ->. simpl.
      split_and!; [apply list_elem_of_here|done..].
    + apply IH in Hin as (? & ? & ? & ?).
      split_and!; [by apply list_elem_of_further|done..].
Qed.

Lemma counts_sum_nonneg (c : list (string * Z)) :
  Forall (λ kc, 1 ≤ kc.2) c → 0 ≤ foldr Z.add 0 c.*2.
Proof.
  induction 1 as [|[k n] c Hn _ IH]; [done|].
  rewrite fmap_cons. cbn [foldr snd] in *. lia.
Qed.

Lemma counts_bounded (c : list (string * Z)) :
  Forall (λ kc, 1 ≤ kc.2) c →
  Forall (λ kc, 1 ≤ kc.2 ≤ foldr Z.add 0 c.*2) c.
Proof.
  induction 1 as [|[k n] c Hn Hc IH]; [constructor|].
  pose proof (counts_sum_nonneg c Hc) as Hsum.
  rewrite fmap_cons. cbn [foldr snd] in *.
  constructor; [cbn [snd]; lia|].
  eapply Forall_impl; [exact IH|]. cbn beta. intros kc Hkc. lia.
Qed.

End Counts.

(** The counts of the status summary add up to the number of records, and
    each is at least 1.  So every status line shows a count between 1 and
    the number of records and a bar of 0 to 20 blocks, one block for every
    three records of that phase. *)
Theorem status_counts_total height self :
  foldr Z.add 0 (status_counts self).*2 = len self ∧
  Forall (λ kc, 1 ≤ kc.2 ≤ len self) (status_counts self) ∧
  ∀ line, line ∈ draw_header_lines height self →
          1 ≤ sl_count line ≤ len self ∧
          0 ≤ sl_bar_length line ≤ 20 ∧
          3 * sl_bar_length line ≤ sl_count line.
Proof.
  destruct (fold_counter_add_counts
              ((λ ep, dict_get ep "phase" "UNKNOWN") <$> endpoints self) [])
    as [Hpos Hsum]; [constructor|].
  rewrite length_fmap in Hsum. simpl in Hsum.
  fold (Counter ((λ ep, dict_get ep "phase" "UNKNOWN") <$> endpoints self)) in Hpos, Hsum.
  fold (status_counts self) in Hpos, Hsum. fold (len self) in Hsum.
  rewrite Z.add_0_l in Hsum.
  assert (Hbound : Forall (λ kc, 1 ≤ kc.2 ≤ len self) (status_counts self)).
  { rewrite <- Hsum. by apply counts_bounded. }
  split_and!; [done..|].
  intros line Hline. unfold draw_header_lines in Hline.
  destruct (endpoints self) eqn:E; [by apply elem_of_nil in Hline|].
  apply draw_status_lines_content in Hline as (Hin & Hbar & _).
  rewrite Forall_forall in Hbound. specialize (Hbound _ Hin). simpl in Hbound.
  rewrite Hbar. split_and!; [lia..| | |].
  - apply Z.min_glb; [lia|]. apply Z.div_pos; lia.
  - lia.
  - pose proof (Z.mul_div_le (sl_count line) 3). lia.
Qed.

Lemma status_counts_total_witness :
  Forall (λ line, 1 ≤ sl_count line ≤ 3)
    (draw_header_lines 24
       (showing [ {[ "name" := "ep-1"; "phase" := "READY" ]};
                  {[ "name" := "ep-2"; "phase" := "FAILED" ]};
                  {[ "name" := "ep-3"; "phase" := "READY" ]} ] 0 0)).
Proof.
  apply Forall_forall. intros line Hline.
  destruct (status_counts_total 24
              (showing [ {[ "name" := "ep-1"; "phase" := "READY" ]};
                         {[ "name" := "ep-2"; "phase" := "FAILED" ]};
                         {[ "name" := "ep-3"; "phase" := "READY" ]} ] 0 0))
    as (_ & _ & H).
  destruct (H line Hline) as (Hc & _). exact Hc.
Defined.

Section Cells.

Lemma str_take_length (n : nat) (s : string) :
  String.length (str_take n s) = Nat.min n (String.length s).
Proof.
  revert s. induction n as [|n IH]; intros [|c s]; simpl; [done..|].
  by rewrite IH.
Qed.

Lemma spaces_length (n : nat) : String.length (spaces n) = n.
Proof. induction n as [|n IH]; simpl; [done|]. by rewrite IH. Qed.

Lemma append_length (s t : string) :
  String.length (s +:+ t) = (String.length s + String.length t)%nat.
Proof. induction s as [|c s IH]; simpl; [done|]. by rewrite IH. Qed.

Lemma str_slice_to_length (n : Z) (s : string) :
  0 ≤ n →
  Z.of_nat (String.length (str_slice_to n s)) = Z.min n (Z.of_nat (String.length s)).
Proof.
  intros Hn. unfold str_slice_to.
  destruct (Z.ltb_spec n 0); [lia|]. rewrite str_take_length. lia.
Qed.

Lemma str_ljust_length (w : Z) (s : string) :
  Z.of_nat (String.length (str_ljust w s)) = Z.max w (Z.of_nat (String.length s)).
Proof. unfold str_ljust. rewrite append_length, spaces_length. lia. Qed.

End Cells.

(** The widths of the cells of a table row.  The id is cut and padded to
    exactly 15 characters.  The connection id column is at least 20 wide;
    its cell is written only on a terminal of 67 columns or more, and then
    it is cut so that it ends before the last column of the terminal.  The
    name, the status and the address are padded but never cut: the name
    cell is as long as the name when that is longer than 12. *)
Theorem table_cell_widths width self (yi : Z * Z) (row : table_row) :
  draw_row width self yi = Ok row →
  Z.of_nat (String.length (tr_id row)) = id_width ∧
  20 ≤ conn_id_width width ∧
  (tr_conn row = None ↔ width ≤ conn_pos + 1) ∧
  (∀ cell, tr_conn row = Some cell →
           Z.of_nat (String.length cell)
           = Z.min (conn_id_width width) (width - conn_pos - 1) ∧
           conn_pos + Z.of_nat (String.length cell) ≤ width - 1) ∧
  name_width ≤ Z.of_nat (String.length (tr_name row)) ∧
  status_width - 3 ≤ Z.of_nat (String.length (tr_status row)) ∧
  ip_width ≤ Z.of_nat (String.length (tr_ip row)) ∧
  (∃ ep, list_index_Z (endpoints self) yi.2 = Ok ep ∧
         Z.of_nat (String.length (tr_name row))
         = Z.max name_width (Z.of_nat (String.length (dict_get ep "name" "")))).
Proof.
  unfold draw_row.
  destruct (list_index_Z (endpoints self) yi.2) as [ep|e]; simpl; [|done].
  intros [= <-]. cbn [tr_id tr_conn tr_name tr_status tr_ip].
  assert (Hw : 20 ≤ conn_id_width width) by (unfold conn_id_width; lia).
  split_and!.
  - rewrite str_ljust_length, str_slice_to_length by (unfold id_width; lia).
    unfold id_width. lia.
  - done.
  - destruct (Z.ltb_spec conn_pos (width - 1)); split; try done; lia.
  - intros cell. destruct (Z.ltb_spec conn_pos (width - 1)); [|done].
    intros [= <-].
    rewrite str_slice_to_length, str_ljust_length, str_slice_to_length by lia.
    lia.
  - rewrite str_ljust_length. lia.
  - rewrite str_ljust_length. lia.
  - rewrite str_ljust_length. lia.
  - exists ep. split; [done|]. by rewrite str_ljust_length.
Qed.

Lemma table_cell_widths_witness :
  ∃ row,
    draw_row 80 (showing [ {[ "name" := "ep-1"; "id" := "ap-0123456789abcdefgh" ]} ] 0 0)
      (7, 0) = Ok row ∧
    Z.of_nat (String.length (tr_id row)) = id_width.
Proof.
  eexists. split; [vm_compute; reflexivity|].
  apply (table_cell_widths 80
           (showing [ {[ "name" := "ep-1"; "id" := "ap-0123456789abcdefgh" ]} ] 0 0)
           (7, 0)).
  vm_compute. reflexivity.
Defined.

Section Room.

Lemma Counter_length_one (l : list string) (x : string) :
  x ∈ l → (length (Counter l) = 1%nat ↔ ∀ y, y ∈ l → y = x).
Proof.
  intros Hx. destruct (Counter_keys l) as [Hnd Hin].
  rewrite <- (length_fmap fst (Counter l)). split.
  - intros Hlen y Hy. apply Hin in Hx, Hy.
    destruct ((Counter l).*1) as [|k [|k' ks]]; simpl in Hlen; try done.
    apply list_elem_of_singleton in Hx, Hy. congruence.
  - intros Hall. apply Hin in Hx.
    destruct ((Counter l).*1) as [|k [|k' ks]] eqn:Ek; [by apply elem_of_nil in Hx|done|].
    assert (k = x) by (apply Hall, Hin, list_elem_of_here).
    assert (k' = x) by (apply Hall, Hin, list_elem_of_further, list_elem_of_here).
    subst. apply NoDup_cons in Hnd as [Hnot _]. destruct Hnot. apply list_elem_of_here.
Qed.

End Room.

Lemma table_room_cases height self :
  endpoints self ≠ [] →
  table_visible_rows (draw_header height self) height ≤ height - 10 ∧
  (table_visible_rows (draw_header height self) height = height - 10 ↔
   ∀ ep ep', ep ∈ endpoints self → ep' ∈ endpoints self →
             dict_get ep "phase" "UNKNOWN" = dict_get ep' "phase" "UNKNOWN").
Proof.
  intros Hne. rewrite (draw_header_nonempty _ _ Hne).
  unfold table_visible_rows, status_counts.
  destruct (endpoints self) as [|x l] eqn:E; [done|]. rewrite <- E.
  remember ((λ ep : endpoint, dict_get ep "phase" "UNKNOWN") <$> endpoints self)
    as phases eqn:Hphases.
  assert (Hx : dict_get x "phase" "UNKNOWN" ∈ phases).
  { rewrite Hphases, E, fmap_cons. apply list_elem_of_here. }
  pose proof (Counter_length_one _ _ Hx) as Hone.
  assert (Hlen : (1 ≤ length (Counter phases))%nat).
  { destruct (Counter_keys phases) as [_ Hin]. apply Hin in Hx.
    rewrite <- (length_fmap fst).
    destruct ((Counter phases).*1); [by apply elem_of_nil in Hx|simpl; lia]. }
  split; [lia|]. split.
  - intros Heq ep ep' Hep Hep'.
    assert (H1 : length (Counter phases) = 1%nat) by lia.
    pose proof (proj1 Hone H1) as Hsame.
    rewrite (Hsame (dict_get ep "phase" "UNKNOWN")),
            (Hsame (dict_get ep' "phase" "UNKNOWN")); [done|..];
      rewrite Hphases;
      by apply (list_elem_of_fmap_2 (λ ep : endpoint, dict_get ep "phase" "UNKNOWN")).
  - intros Hall.
    assert (H1 : length (Counter phases) = 1%nat).
    { apply (proj2 Hone). rewrite Hphases.
      intros y (ep & -> & Hep)%list_elem_of_fmap.
      apply Hall; [done|]. rewrite E. apply list_elem_of_here. }
    lia.
Qed.

(** For a list that is not empty the table never has room for more rows
    than the [height - 10] of [handle_scroll]'s window, and it has room for
    exactly that many only when all the records are in one phase. *)
Theorem table_room_at_most_window height self :
  endpoints self ≠ [] →
  table_visible_rows (draw_header height self) height ≤ height - 10 ∧
  (table_visible_rows (draw_header height self) height = height - 10 ↔
   ∀ ep ep', ep ∈ endpoints self → ep' ∈ endpoints self →
             dict_get ep "phase" "UNKNOWN" = dict_get ep' "phase" "UNKNOWN").
Proof.
  intros Hne. destruct (table_room_cases height self Hne) as [Hle Heq].
  split; [exact Hle|exact Heq].
Qed.

Lemma table_room_at_most_window_witness :
  table_visible_rows
    (draw_header 24
       (showing [ {[ "name" := "ep-1"; "phase" := "READY" ]};
                  {[ "name" := "ep-2"; "phase" := "FAILED" ]} ] 0 0)) 24
  ≤ 24 - 10.
Proof.
  apply (table_room_at_most_window 24
           (showing [ {[ "name" := "ep-1"; "phase" := "READY" ]};
                      {[ "name" := "ep-2"; "phase" := "FAILED" ]} ] 0 0)).
  discriminate.
Defined.

(** Frames without effect: when no auto-refresh is due, a key that is none
    of the nine the loop knows (the -1 of a timeout among them), Up on the
    first row and Down on the last row leave the whole state as it is, the
    offset included. *)
Theorem idle_frame_changes_nothing f key self :
  auto_refresh_due (f_clock f) self = false →
  f_key f = Ok key →
  key ≠ ord_q → key ≠ ord_r → key ≠ ord_t →
  (key ≠ KEY_UP ∧ key ≠ KEY_DOWN ∧ key ≠ KEY_PPAGE ∧ key ≠ KEY_NPAGE ∧
   key ≠ KEY_HOME ∧ key ≠ KEY_END) ∨
  (key = KEY_UP ∧ current_row self ≤ 0) ∨
  (key = KEY_DOWN ∧ len self - 1 ≤ current_row self) →
  run_iteration f self = Ok (Continue self).
Proof.
  intros Hdue Hkey Hq Hr Ht Hcase. unfold run_iteration.
  rewrite Hdue, Hkey. simpl. rewrite dispatch_navigation by done.
  do 2 f_equal. unfold navigate.
  destruct Hcase as [(H1 & H2 & H3 & H4 & H5 & H6)|[[-> Hrow]|[-> Hrow]]].
  - by rewrite (proj2 (Z.eqb_neq _ _) H1), (proj2 (Z.eqb_neq _ _) H2),
      (proj2 (Z.eqb_neq _ _) H3), (proj2 (Z.eqb_neq _ _) H4),
      (proj2 (Z.eqb_neq _ _) H5), (proj2 (Z.eqb_neq _ _) H6).
  - simpl. by destruct (Z.gtb_spec (current_row self) 0); [lia|].
  - simpl. by destruct (Z.ltb_spec (current_row self) (len self - 1)); [lia|].
Qed.

Lemma idle_frame_changes_nothing_witness :
  run_iteration (key_frame 20 5%float (Ok []) (Ok (-1)))
    (showing [named "ep-1"; named "ep-2"] 1 0)
  = Ok (Continue (showing [named "ep-1"; named "ep-2"] 1 0)).
Proof.
  apply (idle_frame_changes_nothing (key_frame 20 5%float (Ok []) (Ok (-1))) (-1)
           (showing [named "ep-1"; named "ep-2"] 1 0));
    try reflexivity; try discriminate.
  left. repeat split; discriminate.
Defined.

(** ** The selected row on the screen *)

Section Visible.




End Visible.



